(** * ODR-DabMod DPD capture engine: a shallow embedding of [gui/dpd/Capture.py]

    The development follows the Python module top-down: IEEE-754 values and
    the wire decoding used by [receive_tcp], the socket and its receive loop,
    coarse alignment ([align_samples]), the amplitude guard and rescaling of
    [get_samples], and the bounded amplitude binning of
    [_bin_and_accumulate]. *)

From Stdlib Require Import ZArith Lia Bool SpecFloat.
From Stdlib Require Import Strings.Byte.
From stdpp Require Import base list.

Local Open Scope Z_scope.
Import ListNotations.

(** ** IEEE-754 values

    NumPy's [float32]/[complex64] and Python's [float] are binary32 and
    binary64.  Both are represented by [spec_float], the precision being
    chosen by the operation.  Where two precisions meet, the promotion rules
    are those of NumPy 1.x, for which the module was written (it reads the
    wire with the binary mode of [np.fromstring]): two scalars are compared
    in the wider type, a scalar and an array in the type of the array. *)
Module F64.
Definition prec : Z := 53.
Definition emax : Z := 1024.

Definition of_Z (z : Z) : spec_float := binary_normalize prec emax z 0 false.
Definition add : spec_float -> spec_float -> spec_float := SFadd prec emax.
Definition sub : spec_float -> spec_float -> spec_float := SFsub prec emax.
Definition mul : spec_float -> spec_float -> spec_float := SFmul prec emax.
Definition div : spec_float -> spec_float -> spec_float := SFdiv prec emax.
Definition sqrt : spec_float -> spec_float := SFsqrt prec emax.

(** Widening of a binary32 value, as NumPy does before it compares a
    [float32] with a [float64]: the value is unchanged, the mantissa is
    re-normalised to 53 bits. *)
Definition of_f32 (x : spec_float) : spec_float :=
  match x with
  | S754_finite s m e => binary_round prec emax s m e
  | _ => x
  end.
End F64.

Module F32.
Definition prec : Z := 24.
Definition emax : Z := 128.

Definition of_Z (z : Z) : spec_float := binary_normalize prec emax z 0 false.
Definition add : spec_float -> spec_float -> spec_float := SFadd prec emax.
Definition sub : spec_float -> spec_float -> spec_float := SFsub prec emax.
Definition mul : spec_float -> spec_float -> spec_float := SFmul prec emax.
Definition div : spec_float -> spec_float -> spec_float := SFdiv prec emax.
Definition sqrt : spec_float -> spec_float := SFsqrt prec emax.

(** Rounding of a binary64 value to binary32, as NumPy 1.x does with a
    [float64] scalar that meets a [float32] array. *)
Definition of_f64 (x : spec_float) : spec_float :=
  match x with
  | S754_finite s m e => binary_round prec emax s m e
  | _ => x
  end.

(** The value of a 32-bit pattern: sign, 8 exponent bits, 23 fraction
    bits. *)
Definition of_bits (w : Z) : spec_float :=
  let s := Z.testbit w 31 in
  let e := Z.land (Z.shiftr w 23) 255 in
  let m := Z.land w (Z.ones 23) in
  if e =? 0 then
    match m with
    | Zpos p => S754_finite s p (-149)
    | _ => S754_zero s
    end
  else if e =? 255 then
    if m =? 0 then S754_infinity s else S754_nan
  else
    match Z.lor m (Z.shiftl 1 23) with
    | Zpos p => S754_finite s p (e - 150)
    | _ => S754_nan
    end.
End F32.

Definition is_nan (x : spec_float) : bool :=
  match x with S754_nan => true | _ => false end.

(** A [complex64] sample: real and imaginary part, both binary32. *)
Definition sample : Type := spec_float * spec_float.

Definition conj (z : sample) : sample := (z.1, SFopp z.2).

(** ** Exceptions and results

    Every Python exception the module can raise is one constructor; the two
    amplitude errors of [get_samples] are both [ValueError] in the source and
    are kept apart here by their message. *)
Inductive exn : Type :=
| ConnectionRefused    (* s.connect: OSError *)
| SocketTimeout        (* s.recv after 4 s: socket.timeout *)
| StructError          (* struct.pack / struct.unpack: struct.error *)
| FromstringSize       (* np.fromstring: size not a multiple of 8 *)
| EmptyReduction       (* np.min / np.max of an empty array *)
| MedianTooHigh (tx_median : spec_float)
| MedianTooLow (tx_median : spec_float)
| ArgmaxEmpty          (* np.argmax of an empty sequence *)
| CorrelateEmpty       (* signal.correlate of an empty array: ValueError *)
| BooleanIndexMismatch (* rxframe[indices] with another length *)
| ListIndexError       (* a list indexed out of range *).

Inductive result (A : Type) : Type :=
| Ok (a : A)
| Raise (e : exn).
Arguments Ok {A} a.
Arguments Raise {A} e.

Definition is_ok {A} (r : result A) : bool :=
  match r with Ok _ => true | Raise _ => false end.


#[global] Instance result_ret : MRet result := fun A a => Ok a.
#[global] Instance result_bind : MBind result := fun A B k r =>
  match r with
  | Ok a => k a
  | Raise e => Raise e
  end.

(** ** What the interpreter, NumPy and SciPy provide

    The byte order of the host ([struct]'s [=] and [np.fromstring] are
    native), the logging level, and the numeric kernels whose rounding the
    module does not fix: [np.abs] on [complex64], a [complex64] array divided
    or multiplied by a [float32] scalar, and [scipy.signal.correlate] in its
    default [full] mode on two buffers that are not empty (on an empty one it
    raises: [signal_correlate]). *)
Class Platform : Type := {
  big_endian : bool;
  log_debug : bool;
  cabs : sample -> spec_float;
  cdiv_real : sample -> spec_float -> sample;
  cmul_real : sample -> spec_float -> sample;
  correlate : list sample -> list sample -> list sample
}.

(** Modelled from the spec: the fine-alignment collaborator [Align]
    ([subsample_align] and [phase_align]) is imported by [Capture.py] but is
    not part of the sources at hand.  Section 4.2 gives its contract: from two
    buffers of equal length it returns RX resampled, then rotated, and it does
    not change the buffer length. *)
Class FineAlign : Type := {
  subsample_align : list sample -> list sample -> list sample;
  phase_align : list sample -> list sample -> list sample;
  subsample_align_length : forall rx tx : list sample,
    length (subsample_align rx tx) = length rx;
  phase_align_length : forall rx tx : list sample,
    length (phase_align rx tx) = length rx
}.

(** ** NumPy functions with a fixed meaning *)

(** [a[:stop]] and [a[start:]] for a Python list or 1-D array; a negative
    index counts from the end and both saturate. *)
Definition slice_stop {A} (a : list A) (stop : Z) : list A :=
  if stop <? 0 then take (Z.to_nat (Z.of_nat (length a) + stop)) a
  else take (Z.to_nat stop) a.

Definition slice_start {A} (a : list A) (start : Z) : list A :=
  if start <? 0 then drop (Z.to_nat (Z.of_nat (length a) + start)) a
  else drop (Z.to_nat start) a.

Fixpoint insert_sorted (x : spec_float) (l : list spec_float) : list spec_float :=
  match l with
  | [] => [x]
  | y :: l' => if SFleb x y then x :: l else y :: insert_sorted x l'
  end.

Definition sort_floats (l : list spec_float) : list spec_float :=
  foldr insert_sorted [] l.

(** [np.median] of a 1-D [float32] array: NaN when the array is empty or
    holds a NaN, the middle element when the length is odd, the [float32]
    mean of the two middle elements when it is even. *)
Definition np_median (a : list spec_float) : spec_float :=
  if existsb is_nan a then S754_nan
  else
    let s := sort_floats a in
    let n := length a in
    match n with
    | O => S754_nan
    | _ =>
        if Nat.odd n then nth (n / 2)%nat s S754_nan
        else F32.div (F32.add (nth (n / 2 - 1)%nat s S754_nan)
                              (nth (n / 2)%nat s S754_nan))
                     (F32.of_Z 2)
    end.

(** [np.argmax]: the first index of the maximum; a NaN counts as the
    maximum; an empty sequence raises. *)
Fixpoint argmax_from (l : list spec_float) (i best_i : nat) (best : spec_float) : nat :=
  match l with
  | [] => best_i
  | x :: l' =>
      if is_nan best then best_i
      else if negb (SFleb x best) then argmax_from l' (S i) i x
      else argmax_from l' (S i) best_i best
  end.

Definition np_argmax (c : list spec_float) : result nat :=
  match c with
  | [] => Raise ArgmaxEmpty
  | x :: l => Ok (argmax_from l 1 0 x)
  end.

(** [np.linspace(start, stop, num)] in binary64, end point included. *)
Definition np_linspace (start stop : spec_float) (num : nat) : list spec_float :=
  match num with
  | O => []
  | S O => [start]
  | S div =>
      let delta := F64.sub stop start in
      let step := F64.div delta (F64.of_Z (Z.of_nat div)) in
      let y (i : nat) :=
        if SFeqb step (S754_zero false)
        then F64.mul (F64.div (F64.of_Z (Z.of_nat i)) (F64.of_Z (Z.of_nat div))) delta
        else F64.mul (F64.of_Z (Z.of_nat i)) step in
      map (fun i => F64.add (y i) start) (seq 0 div) ++ [stop]
  end.

(** ** Coarse and fine alignment: [align_samples] *)
Section Align.
Context {P : Platform} {FA : FineAlign}.

(** [scipy.signal.correlate(in1, in2)] with its default arguments: the
    kernel of the platform, and [ValueError] on an empty input. *)
Definition signal_correlate (in1 in2 : list sample) : result (list sample) :=
  match in1, in2 with
  | [], _ | _, [] => Raise CorrelateEmpty
  | _, _ => Ok (correlate in1 in2)
  end.

(** Lines 46-59 of [align_samples]: the whole-sample part. *)
Definition coarse_align (sig_tx sig_rx : list sample)
  : result (list sample * list sample) :=
  correlation ← signal_correlate sig_rx sig_tx;
  let c := map cabs correlation in
  k ← np_argmax c;
  let off_meas := Z.of_nat k - Z.of_nat (length sig_tx) + 1 in
  let off := Z.abs off_meas in
  let '(sig_tx, sig_rx) :=
    if off_meas >? 0 then (slice_stop sig_tx (- off), slice_start sig_rx off)
    else if off_meas <? 0 then (slice_start sig_tx off, slice_stop sig_rx (- off))
    else (sig_tx, sig_rx) in
  let '(sig_tx, sig_rx) :=
    if off mod 2 =? 1 then (slice_stop sig_tx (-1), slice_stop sig_rx (-1))
    else (sig_tx, sig_rx) in
  mret (sig_tx, sig_rx).

Definition align_samples (sig_tx sig_rx : list sample)
  : result (list sample * list sample) :=
  '(sig_tx, sig_rx) ← coarse_align sig_tx sig_rx;
  let sig_rx := subsample_align sig_rx sig_tx in
  let sig_rx := phase_align sig_rx sig_tx in
  mret (sig_tx, sig_rx).
End Align.

(** ** Wire decoding: [struct] and [np.fromstring] *)
Section Wire.
Context {P : Platform}.

Definition byte_val (b : byte) : Z := Z.of_N (Byte.to_N b).

Definition byte_of_Z (z : Z) : byte :=
  match Byte.of_N (Z.to_N (z mod 256)) with
  | Some b => b
  | None => x00
  end.

(** Four bytes in host order as an unsigned 32-bit integer. *)
Definition u32 (b0 b1 b2 b3 : byte) : Z :=
  let '(l0, l1, l2, l3) :=
    if big_endian then (b3, b2, b1, b0) else (b0, b1, b2, b3) in
  Z.lor (byte_val l0)
    (Z.lor (Z.shiftl (byte_val l1) 8)
       (Z.lor (Z.shiftl (byte_val l2) 16) (Z.shiftl (byte_val l3) 24))).

(** [struct.pack("=I", n)]: out of the 32-bit range it raises. *)
Definition pack_I (n : Z) : result (list byte) :=
  if (0 <=? n) && (n <? 2 ^ 32) then
    let le := [byte_of_Z n; byte_of_Z (Z.shiftr n 8);
               byte_of_Z (Z.shiftr n 16); byte_of_Z (Z.shiftr n 24)] in
    Ok (if big_endian then reverse le else le)
  else Raise StructError.

(** [struct.unpack("=III", buf)]: exactly 12 bytes or it raises. *)
Definition unpack_III (buf : list byte) : result (Z * Z * Z) :=
  match buf with
  | [a0; a1; a2; a3; b0; b1; b2; b3; c0; c1; c2; c3] =>
      Ok (u32 a0 a1 a2 a3, u32 b0 b1 b2 b3, u32 c0 c1 c2 c3)
  | _ => Raise StructError
  end.

(** [struct.unpack("=II", buf)]: exactly 8 bytes or it raises. *)
Definition unpack_II (buf : list byte) : result (Z * Z) :=
  match buf with
  | [a0; a1; a2; a3; b0; b1; b2; b3] =>
      Ok (u32 a0 a1 a2 a3, u32 b0 b1 b2 b3)
  | _ => Raise StructError
  end.

Fixpoint decode_complex64 (bs : list byte) : list sample :=
  match bs with
  | a0 :: a1 :: a2 :: a3 :: b0 :: b1 :: b2 :: b3 :: rest =>
      (F32.of_bits (u32 a0 a1 a2 a3), F32.of_bits (u32 b0 b1 b2 b3))
        :: decode_complex64 rest
  | _ => []
  end.

(** [np.fromstring(buf, dtype=np.complex64)]: one sample per 8 bytes; a
    size that is not a multiple of 8 raises. *)
Definition np_fromstring (buf : list byte) : result (list sample) :=
  if (length buf mod 8 =? 0)%nat then Ok (decode_complex64 buf)
  else Raise FromstringSize.
End Wire.

(** ** The socket

    The peer is a script: the segments it delivers, in order, and the places
    where it stalls for longer than the 4 s timeout.  The end of the script is
    the peer closing the connection. *)
Inductive event : Type :=
| Data (bs : list byte)
| Stall.

Record peer : Type := {
  accepts : bool;
  script : list event
}.

Record socket : Type := {
  inbox : list event;
  outbox : list byte;
  is_open : bool
}.

(** A computation on a state (the socket, or the [Capture] object) that may
    raise; an exception leaves the state as it is at that point. *)
Definition ST (S A : Type) : Type := S -> result A * S.

Definition raise {S A} (e : exn) : ST S A := fun s => (Raise e, s).
Definition lift {S A} (r : result A) : ST S A := fun s => (r, s).
Definition gets {S A} (f : S -> A) : ST S A := fun s => (Ok (f s), s).
Definition modify {S} (f : S -> S) : ST S unit := fun s => (Ok tt, f s).

#[global] Instance st_ret {S} : MRet (ST S) := fun A a s => (Ok a, s).
#[global] Instance st_bind {S} : MBind (ST S) := fun A B k m s =>
  match m s with
  | (Ok a, s') => k a s'
  | (Raise e, s') => (Raise e, s')
  end.

(** A [for] loop over a list. *)
Fixpoint for_each {S A} (body : A -> ST S unit) (l : list A) : ST S unit :=
  match l with
  | [] => mret tt
  | x :: l' => body x;; for_each body l'
  end.

Abbreviation IO := (ST socket).

(** [socket.socket(...)] and [s.settimeout(4)]. *)
Definition new_socket : socket :=
  {| inbox := []; outbox := []; is_open := true |}.

(** [s.connect(('localhost', port))]. *)
Definition connect (p : peer) : IO unit := fun s =>
  if accepts p
  then (Ok tt, {| inbox := script p; outbox := outbox s; is_open := is_open s |})
  else (Raise ConnectionRefused, s).

(** [s.sendall(data)]. *)
Definition sendall (data : list byte) : IO unit := fun s =>
  (Ok tt, {| inbox := inbox s; outbox := outbox s ++ data; is_open := is_open s |}).

(** [s.close()]. *)
Definition close : IO unit := fun s =>
  (Ok tt, {| inbox := inbox s; outbox := outbox s; is_open := false |}).

(** [s.recv(n)]: at most [n] bytes of the next segment; [b''] once the peer
    has closed; a stall raises [socket.timeout]. *)
Fixpoint recv_from (evs : list event) (n : nat) : result (list byte) * list event :=
  match evs with
  | [] => (Ok [], [])
  | Stall :: _ => (Raise SocketTimeout, evs)
  | Data [] :: evs' => recv_from evs' n
  | Data bs :: evs' =>
      if (length bs <=? n)%nat then (Ok bs, evs')
      else (Ok (take n bs), Data (drop n bs) :: evs')
  end.

Definition recv (n : nat) : IO (list byte) := fun s =>
  let '(r, evs) := recv_from (inbox s) n in
  (r, {| inbox := evs; outbox := outbox s; is_open := is_open s |}).

(** The [while num_bytes > 0] loop of [_recv_exact].  Every turn that does
    not leave the loop lowers [num_bytes] by at least one, so [num_bytes]
    turns are always enough ([recv_loop_fuel]). *)
Fixpoint recv_loop (fuel num_bytes : nat) (bufs : list (list byte)) : IO (list (list byte)) :=
  match fuel with
  | O => mret bufs
  | S fuel' =>
      if (0 <? num_bytes)%nat then
        b ← recv num_bytes;
        if (length b =? 0)%nat then mret bufs
        else recv_loop fuel' (num_bytes - length b) (bufs ++ [b])
      else mret bufs
  end.

Definition _recv_exact (num_bytes : nat) : IO (list byte) :=
  bufs ← recv_loop num_bytes num_bytes [];
  mret (concat bufs).

(** ** The [Capture] object *)

(** One row of a bin: a TX sample and the RX sample of the same index. *)
Abbreviation sample_pair := (sample * sample)%type.

Record Capture : Type := {
  samplerate : Z;
  sizeof_sample : Z;
  port : Z;
  num_samples_to_request : Z;
  binning_start : spec_float;
  binning_end : spec_float;
  binning_n_bins : nat;
  binning_n_per_bin : Z;
  target_median : spec_float;
  median_max : spec_float;
  median_min : spec_float;
  accumulated_bins : list (list sample_pair)
}.

Definition set_accumulated_bins (bins : list (list sample_pair)) (self : Capture) : Capture :=
  {| samplerate := samplerate self;
     sizeof_sample := sizeof_sample self;
     port := port self;
     num_samples_to_request := num_samples_to_request self;
     binning_start := binning_start self;
     binning_end := binning_end self;
     binning_n_bins := binning_n_bins self;
     binning_n_per_bin := binning_n_per_bin self;
     target_median := target_median self;
     median_max := median_max self;
     median_min := median_min self;
     accumulated_bins := bins |}.

(** The literals [0.05] and [1.4] as Python reads them: the binary64 values
    nearest to 5/100 and 14/10. *)
Definition lit_0_05 : spec_float := F64.div (F64.of_Z 5) (F64.of_Z 100).
Definition lit_1_4 : spec_float := F64.div (F64.of_Z 14) (F64.of_Z 10).

(** [Capture.__init__]. *)
Definition init (samplerate port num_samples_to_request : Z) : Capture :=
  let target_median := lit_0_05 in
  {| samplerate := samplerate;
     sizeof_sample := 8;
     port := port;
     num_samples_to_request := num_samples_to_request;
     binning_start := S754_zero false;
     binning_end := F64.of_Z 1;
     binning_n_bins := 64;
     binning_n_per_bin := 128;
     target_median := target_median;
     median_max := F64.mul target_median lit_1_4;
     median_min := F64.div target_median lit_1_4;
     accumulated_bins := replicate 64 [] |}.

(** The tuple returned by [get_samples], in the order of the source. *)
Record samples : Type := {
  txframe_aligned : list sample;
  tx_ts : spec_float;
  tx_median : spec_float;
  rxframe_aligned : list sample;
  rx_ts : spec_float;
  rx_median : spec_float
}.

(** [a[mask]] for a boolean mask: the selected elements in index order.  A
    mask of another length raises, but for the empty mask, which NumPy lets
    index an array of any length: it selects nothing. *)
Definition np_mask {A} (a : list A) (mask : list bool) : result (list A) :=
  if ((length a =? length mask) || (length mask =? 0))%nat
  then Ok (map fst (filter (fun xm => Is_true (snd xm)) (zip a mask)))
  else Raise BooleanIndexMismatch.

(** [tx_start < a] and [a <= tx_end] joined by [np.bitwise_and], for one
    element [a] of a [float32] array and two [float64] scalars. *)
Definition in_interval (tx_start tx_end a : spec_float) : bool :=
  SFltb (F32.of_f64 tx_start) a && SFleb a (F32.of_f64 tx_end).

Section Methods.
Context {P : Platform} {FA : FineAlign}.

(** [seconds + pps / 16384000.0] in binary64. *)
Definition timestamp (second pps : Z) : spec_float :=
  F64.add (F64.of_Z second) (F64.div (F64.of_Z pps) (F64.of_Z 16384000)).

(** The two [logging.debug] calls of [receive_tcp] that evaluate [np.min]
    and [np.max]: they run at DEBUG level only and raise on an empty
    frame. *)
Definition debug_stats (frame : list sample) : IO unit :=
  if log_debug then
    match frame with
    | [] => raise EmptyReduction
    | _ => mret tt
    end
  else mret tt.

Definition recv_frame (self : Capture) (num_samps : Z) : IO (list sample) :=
  if num_samps >? 0 then
    frame_bytes ← _recv_exact (Z.to_nat (num_samps * sizeof_sample self));
    lift (np_fromstring frame_bytes)
  else mret [].

(** [Capture.receive_tcp], run on the socket it creates; the socket is
    returned next to the result so that its final state can be observed. *)
Definition receive_tcp_on (self : Capture) (p : peer)
  : IO (list sample * spec_float * list sample * spec_float) :=
  connect p;;
  sendall [x01];;
  request ← lift (pack_I (num_samples_to_request self));
  sendall request;;
  header ← _recv_exact 12;
  '(num_samps, tx_second, tx_pps) ← lift (unpack_III header);
  let tx_ts := timestamp tx_second tx_pps in
  txframe ← recv_frame self num_samps;
  rx_header ← _recv_exact 8;
  '(rx_second, rx_pps) ← lift (unpack_II rx_header);
  let rx_ts := timestamp rx_second rx_pps in
  rxframe ← recv_frame self num_samps;
  debug_stats txframe;;
  debug_stats rxframe;;
  close;;
  mret (txframe, tx_ts, rxframe, rx_ts).

Definition receive_tcp (self : Capture) (p : peer)
  : result (list sample * spec_float * list sample * spec_float) * socket :=
  receive_tcp_on self p new_socket.

(** [Capture._bin_and_accumulate]: the body of the loop for bin [i] and
    its interval.  The [print] calls and the unused [minsize] are left
    out. *)
Definition bin_body (txframe rxframe : list sample)
    (it : nat * (spec_float * spec_float)) : ST Capture unit :=
  let '(i, (tx_start, tx_end)) := it in
  let txframe_abs := map cabs txframe in
  let indices := map (in_interval tx_start tx_end) txframe_abs in
  txsamples ← lift (np_mask txframe indices);
  rxsamples ← lift (np_mask rxframe indices);
  let binned_sample_pairs := zip txsamples rxsamples in
  bins ← gets accumulated_bins;
  n_per_bin ← gets binning_n_per_bin;
  match bins !! i with
  | None => raise ListIndexError
  | Some bin_i =>
      let missing_in_bin := n_per_bin - Z.of_nat (length bin_i) in
      let num_to_append :=
        Z.min missing_in_bin (Z.of_nat (length binned_sample_pairs)) in
      if num_to_append =? 0 then mret tt
      else
        modify (set_accumulated_bins
                  (<[i := bin_i ++ slice_stop binned_sample_pairs num_to_append]> bins))
  end.

Definition _bin_and_accumulate (txframe rxframe : list sample) : ST Capture unit :=
  start ← gets binning_start;
  stop ← gets binning_end;
  n_bins ← gets binning_n_bins;
  let bin_edges := np_linspace start stop n_bins in
  for_each (bin_body txframe rxframe)
           (zip (seq 0 (length bin_edges)) (zip bin_edges (slice_start bin_edges 1))).

(** [Capture.bin_histogram]. *)
Definition bin_histogram (self : Capture) : list nat :=
  map length (accumulated_bins self).

(** Lines 168-176 of [get_samples]: the amplitude guard and the rescaling
    of RX. *)
Definition normalize (self : Capture) (txframe rxframe : list sample)
  : result (list sample * spec_float * spec_float) :=
  let tx_median := np_median (map cabs txframe) in
  if SFltb (median_max self) (F64.of_f32 tx_median) then
    Raise (MedianTooHigh tx_median)
  else if SFltb (F64.of_f32 tx_median) (median_min self) then
    Raise (MedianTooLow tx_median)
  else
    let rx_median := np_median (map cabs rxframe) in
    let rxframe := map (fun x => cmul_real (cdiv_real x rx_median) tx_median) rxframe in
    Ok (rxframe, tx_median, rx_median).

(** Lines 178-182 of [get_samples]: alignment, binning and the returned
    tuple. *)
Definition align_and_bin (txframe rxframe : list sample)
    (tx_ts rx_ts tx_median rx_median : spec_float) : ST Capture samples :=
  '(txframe_aligned, rxframe_aligned) ← lift (align_samples txframe rxframe);
  _bin_and_accumulate txframe_aligned rxframe_aligned;;
  mret {| txframe_aligned := txframe_aligned; tx_ts := tx_ts;
          tx_median := tx_median; rxframe_aligned := rxframe_aligned;
          rx_ts := rx_ts; rx_median := rx_median |}.

(** [Capture.get_samples]. *)
Definition get_samples (p : peer) : ST Capture samples :=
  self ← gets id;
  '(txframe, tx_ts, rxframe, rx_ts) ← lift (receive_tcp self p).1;
  '(rxframe, tx_median, rx_median) ← lift (normalize self txframe rxframe);
  align_and_bin txframe rxframe tx_ts rx_ts tx_median rx_median.
End Methods.

(** ** The point cloud: [pointcloud_png] *)

(** What [pointcloud_png] does: it returns the image, here the list of the
    [ax.scatter(x, y)] calls that drew it, or it raises. *)
Inductive plot : Type :=
| Png (scattered : list (list spec_float * list spec_float))
| TruthValueError   (* bool() of an array of several elements: ValueError *)
| RowIndexError     (* b[1] of an array of one row: IndexError *).

(** [if b:] for a bin, an array of shape [(k, 2)]: NumPy takes an array
    without elements as false, and raises on one of more than one element;
    a bin of [k > 0] rows has [2 k] of them. *)
Definition bin_truth (b : list sample_pair) : option bool :=
  match b with
  | [] => Some false
  | _ :: _ => None
  end.

Section PointCloud.
Context {P : Platform}.

(** [np.abs] of one row of a bin. *)
Definition abs_row (row : sample_pair) : list spec_float :=
  [cabs row.1; cabs row.2].

(** The loop of [pointcloud_png] over the bins. *)
Fixpoint scatter_bins (bins : list (list sample_pair))
    (scattered : list (list spec_float * list spec_float)) : plot :=
  match bins with
  | [] => Png scattered
  | b :: bins' =>
      match bin_truth b with
      | None => TruthValueError
      | Some false => scatter_bins bins' scattered
      | Some true =>
          match b with
          | row0 :: row1 :: _ =>
              scatter_bins bins' (scattered ++ [(abs_row row0, abs_row row1)])
          | _ => RowIndexError
          end
      end
  end.

(** [Capture.pointcloud_png]: the figure holds what the loop scattered;
    titles, limits and the legend do not change what is returned here. *)
Definition pointcloud_png (self : Capture) : plot :=
  scatter_bins (accumulated_bins self) [].
End PointCloud.

(** ** A reference platform

    A little-endian host above DEBUG level, with the numeric kernels as
    NumPy evaluates them on [complex64]: the magnitude by [hypotf],
    evaluated in binary64 and rounded to binary32; a [float32] scalar that meets a
    [complex64] array becomes the complex number [r + 0j], and the quotient
    and the product are those of two complex numbers.  The correlation is
    summed directly; on the inputs used below every product and sum of it is
    exact. *)
Module Ref.
Definition czero : sample := (S754_zero false, S754_zero false).

Definition cadd (a b : sample) : sample :=
  (F32.add a.1 b.1, F32.add a.2 b.2).

Definition cmul (a b : sample) : sample :=
  (F32.sub (F32.mul a.1 b.1) (F32.mul a.2 b.2),
   F32.add (F32.mul a.1 b.2) (F32.mul a.2 b.1)).

Definition is_inf (x : spec_float) : bool :=
  match x with S754_infinity _ => true | _ => false end.

(** [np.abs] of a [complex64]: [hypotf(re, im)]. *)
Definition cabs_direct (z : sample) : spec_float :=
  if is_inf z.1 || is_inf z.2 then S754_infinity false
  else
    let re := F64.of_f32 z.1 in
    let im := F64.of_f32 z.2 in
    F32.of_f64 (F64.sqrt (F64.add (F64.mul re re) (F64.mul im im))).

(** The quotient of two [complex64] as NumPy's loop computes it (Smith's
    method). *)
Definition cdiv (a b : sample) : sample :=
  let one := F32.of_Z 1 in
  let br_abs := SFabs b.1 in
  let bi_abs := SFabs b.2 in
  if SFleb bi_abs br_abs then
    if SFeqb br_abs (S754_zero false) && SFeqb bi_abs (S754_zero false) then
      (F32.div a.1 br_abs, F32.div a.2 br_abs)
    else
      let rat := F32.div b.2 b.1 in
      let scl := F32.div one (F32.add b.1 (F32.mul b.2 rat)) in
      (F32.mul (F32.add a.1 (F32.mul a.2 rat)) scl,
       F32.mul (F32.sub a.2 (F32.mul a.1 rat)) scl)
  else
    let rat := F32.div b.1 b.2 in
    let scl := F32.div one (F32.add b.2 (F32.mul b.1 rat)) in
    (F32.mul (F32.add (F32.mul a.1 rat) a.2) scl,
     F32.mul (F32.sub (F32.mul a.2 rat) a.1) scl).

(** A [complex64] divided and multiplied by a [float32] scalar. *)
Definition cdiv_direct (z : sample) (r : spec_float) : sample :=
  cdiv z (r, S754_zero false).

Definition cmul_direct (z : sample) (r : spec_float) : sample :=
  cmul z (r, S754_zero false).

(** Full cross-correlation by direct summation:
    [z[k] = sum_l x[l] * conj(y[l - k + len(y) - 1])]. *)
Definition correlate_at (x y : list sample) (k : nat) : sample :=
  foldl cadd czero
    (imap (fun l xl =>
             if (k <=? l + length y - 1)%nat then
               match y !! (l + length y - 1 - k)%nat with
               | Some ym => cmul xl (conj ym)
               | None => czero
               end
             else czero) x).

(** The kernel for two buffers that are not empty; an empty one does not
    reach it. *)
Definition correlate_direct (x y : list sample) : list sample :=
  match x, y with
  | [], _ | _, [] => []
  | _, _ => map (correlate_at x y) (seq 0 (length x + length y - 1))
  end.

#[export] Instance platform : Platform := {|
  big_endian := false;
  log_debug := false;
  cabs := cabs_direct;
  cdiv_real := cdiv_direct;
  cmul_real := cmul_direct;
  correlate := correlate_direct
|}.


(** A fine aligner that returns RX as it is. *)
#[export] Instance fine_align : FineAlign := {|
  subsample_align := fun rx _ => rx;
  phase_align := fun rx _ => rx;
  subsample_align_length := fun _ _ => eq_refl;
  phase_align_length := fun _ _ => eq_refl
|}.

(** The least significant four bytes of [n], lowest first. *)
Definition le32 (n : Z) : list byte :=
  [byte_of_Z n; byte_of_Z (Z.shiftr n 8);
   byte_of_Z (Z.shiftr n 16); byte_of_Z (Z.shiftr n 24)].

(** The bytes of a frame whose samples are given by their bit patterns. *)
Definition frame_bytes (frame : list (Z * Z)) : list byte :=
  concat (map (fun z => le32 z.1 ++ le32 z.2) frame).

(** A well-behaved server: the whole reply in one segment. *)
Definition reply (num_samps tx_second tx_pps : Z) (tx : list (Z * Z))
    (rx_second rx_pps : Z) (rx : list (Z * Z)) : list byte :=
  le32 num_samps ++ le32 tx_second ++ le32 tx_pps ++ frame_bytes tx
    ++ le32 rx_second ++ le32 rx_pps ++ frame_bytes rx.
End Ref.

(** * Definitions used by the statements *)

(** ** The bins *)

(** What one turn of the loop stores for a bin: the bin, extended by the first
    [min(missing, available)] candidates. *)
Definition extend_bin (n_per_bin : Z) (bin cands : list sample_pair) : list sample_pair :=
  let k := Z.min (n_per_bin - Z.of_nat (length bin)) (Z.of_nat (length cands)) in
  if (k =? 0)%Z then bin else bin ++ slice_stop cands k.

Section Derived.
Context {P : Platform} {FA : FineAlign}.
Implicit Types tx rx : list sample.
Implicit Types bin : list sample_pair.
Implicit Types bins : list (list sample_pair).
Implicit Types ivs : list (spec_float * spec_float).
Implicit Types self : Capture.

(** The candidate pairs of an interval: the pairs whose TX magnitude lies
    in it, in the order of the sample index. *)
Definition candidates tx rx (lo hi : spec_float) : list sample_pair :=
  filter (fun tr => Is_true (in_interval lo hi (cabs tr.1))) (zip tx rx).

(** The edges and the intervals of the loop of [_bin_and_accumulate]. *)
Definition bin_edges (self : Capture) : list spec_float :=
  np_linspace (binning_start self) (binning_end self) (binning_n_bins self).

Definition intervals (self : Capture) : list (spec_float * spec_float) :=
  zip (bin_edges self) (slice_start (bin_edges self) 1).

(** The bins after the loop: bin [i] extended from interval [i], the bins
    past the last interval untouched. *)
Fixpoint accumulate_bins (n_per_bin : Z) tx rx ivs bins : list (list sample_pair) :=
  match ivs, bins with
  | (lo, hi) :: ivs', bin :: bins' =>
      extend_bin n_per_bin bin (candidates tx rx lo hi)
        :: accumulate_bins n_per_bin tx rx ivs' bins'
  | _, _ => bins
  end.

(** A sequence of [_bin_and_accumulate] calls on one object; a call that
    raises leaves what it had stored. *)
Definition run_accumulate (frames : list (list sample * list sample))
    (self : Capture) : Capture :=
  foldl (fun s f => (_bin_and_accumulate f.1 f.2 s).2) self frames.

(** What holds of a [Capture] object after [__init__] and after every
    call: the configuration is that of [__init__]; there are 64 bins of at
    most 128 pairs, the last one empty; every stored pair passed the test
    of the interval of its bin. *)
Record well_formed (self : Capture) : Prop := {
  wf_config :
    set_accumulated_bins [] self
    = set_accumulated_bins []
        (init (samplerate self) (port self) (num_samples_to_request self));
  wf_count : length (accumulated_bins self) = 64%nat;
  wf_capacity : Forall (fun bin => (length bin <= 128)%nat) (accumulated_bins self);
  wf_last : accumulated_bins self !! 63%nat = Some [];
  wf_member : forall (i : nat) bin (tr : sample_pair),
    accumulated_bins self !! i = Some bin -> tr ∈ bin ->
    exists lo hi, intervals self !! i = Some (lo, hi)
                  /\ in_interval lo hi (cabs tr.1) = true
}.

(** How a bin may change: it keeps its pairs in place, stays within the
    capacity, and does not change at all once it is full. *)
Definition bin_step bin bin' : Prop :=
  bin `prefix_of` bin' /\ (length bin' <= 128)%nat
  /\ (length bin = 128%nat -> bin' = bin).

(** The capture pipeline in the order of the specification (section 4.5):
    capture, alignment, normalization of the aligned buffers, binning.  To be
    compared with [get_samples]. *)
Definition capture_spec_order (p : peer) : ST Capture samples :=
  self ← gets id;
  '(txframe, tx_ts, rxframe, rx_ts) ← lift (receive_tcp self p).1;
  '(tx_aligned, rx_aligned) ← lift (align_samples txframe rxframe);
  '(rx_scaled, tx_median, rx_median) ← lift (normalize self tx_aligned rx_aligned);
  _bin_and_accumulate tx_aligned rx_scaled;;
  mret {| txframe_aligned := tx_aligned; tx_ts := tx_ts;
          tx_median := tx_median; rxframe_aligned := rx_scaled;
          rx_ts := rx_ts; rx_median := rx_median |}.
End Derived.

(** ** The socket *)

(** A computation that leaves an open socket open, whatever it returns. *)
Definition keeps_open {A} (m : IO A) : Prop :=
  forall s, is_open s = true -> is_open (m s).2 = true.

(** A computation that closes the socket exactly when it returns
    normally. *)
Definition closes_iff_ok {A} (m : IO A) : Prop :=
  forall s, is_open s = true -> is_open (m s).2 = negb (is_ok (m s).1).

(** ** Cropping *)

(** The cropping rule in the words of the specification (section 4.2, steps
    3 and 4), to be compared with [coarse_align]. *)
Definition drop_last {A} (k : nat) (a : list A) : list A :=
  take (length a - k) a.

Definition crop_by_offset (offset : Z) (tx rx : list sample)
  : list sample * list sample :=
  let d := Z.abs_nat offset in
  let '(tx, rx) :=
    if (0 <? offset)%Z then (drop_last d tx, drop d rx)
    else if (offset <? 0)%Z then (drop d tx, drop_last d rx)
    else (tx, rx) in
  if Z.odd (Z.abs offset) then (drop_last 1 tx, drop_last 1 rx) else (tx, rx).

(** ** The byte stream of a peer *)

(** The bytes a peer delivers before it stalls or closes. *)
Fixpoint pending (evs : list event) : list byte :=
  match evs with
  | [] => []
  | Data bs :: evs' => bs ++ pending evs'
  | Stall :: _ => []
  end.

(** Whether the peer stalls, rather than closes, after these bytes. *)
Fixpoint stalls (evs : list event) : bool :=
  match evs with
  | [] => false
  | Data _ :: evs' => stalls evs'
  | Stall :: _ => true
  end.

(** A computation that sends nothing. *)
Definition sends_nothing {A} (m : IO A) : Prop :=
  forall s, outbox (m s).2 = outbox s.

(** The bytes [recv_frame] asks for. *)
Definition frame_size (self : Capture) (num_samps : Z) : nat :=
  if (num_samps >? 0)%Z then Z.to_nat (num_samps * sizeof_sample self) else 0%nat.

Section Parse.
Context {P : Platform} {FA : FineAlign}.

(** One payload read off the stream: the frame and what is left. *)
Definition parse_frame (self : Capture) (num_samps : Z) (stream : list byte)
  : result (list sample) * list byte :=
  if (num_samps >? 0)%Z then
    let n := Z.to_nat (num_samps * sizeof_sample self) in
    (np_fromstring (take n stream), drop n stream)
  else (Ok [], stream).

Definition debug_check (frame : list sample) : result unit :=
  if log_debug then
    match frame with
    | [] => Raise EmptyReduction
    | _ => Ok tt
    end
  else Ok tt.

(** What [receive_tcp] makes of the byte stream of a peer that does not
    stall, to be compared with [receive_tcp]. *)
Definition parse_reply (self : Capture) (stream : list byte)
  : result (list sample * spec_float * list sample * spec_float) :=
  '(num_samps, tx_second, tx_pps) ← unpack_III (take 12 stream);
  let stream := drop 12 stream in
  txframe ← (parse_frame self num_samps stream).1;
  let stream := (parse_frame self num_samps stream).2 in
  '(rx_second, rx_pps) ← unpack_II (take 8 stream);
  let stream := drop 8 stream in
  rxframe ← (parse_frame self num_samps stream).1;
  debug_check txframe;;
  debug_check rxframe;;
  mret (txframe, timestamp tx_second tx_pps, rxframe, timestamp rx_second rx_pps).
End Parse.

(** ** The edges of the bins *)

(** A list of values in ascending order, none of them NaN. *)
Fixpoint ascending (l : list spec_float) : bool :=
  match l with
  | x :: (y :: _) as l' => SFleb x y && ascending l'
  | _ => true
  end.

(** The edges as the interval test sees them: rounded to binary32. *)
Definition edges32 (self : Capture) : list spec_float :=
  map F32.of_f64 (bin_edges self).

(** ** Histories of calls *)

(** A call of one of the two methods that store into the bins. *)
Inductive call : Type :=
| GetSamples (p : peer)
| BinAndAccumulate (tx rx : list sample).

Section Calls.
Context {P : Platform} {FA : FineAlign}.

Definition run_call (c : call) (self : Capture) : Capture :=
  match c with
  | GetSamples p => (get_samples p self).2
  | BinAndAccumulate tx rx => (_bin_and_accumulate tx rx self).2
  end.

(** A history of calls on one object, whatever each call returned or
    raised. *)
Definition run_calls (calls : list call) (self : Capture) : Capture :=
  foldl (fun s c => run_call c s) self calls.
End Calls.

(** ** Concrete captures on the reference platform *)
Module Fixtures.
Import Ref.

(** Bit patterns of the binary32 values used below. *)
Definition b0_0625 : Z := 0x3D800000.
Definition b0_09375 : Z := 0x3DC00000.
Definition b0_125 : Z := 0x3E000000.

Definition x0_0625 : sample := (F32.of_bits b0_0625, F32.of_bits 0).
Definition x0_09375 : sample := (F32.of_bits b0_09375, F32.of_bits 0).
Definition x0_125 : sample := (F32.of_bits b0_125, F32.of_bits 0).
Definition x0 : sample := (F32.of_bits 0, F32.of_bits 0).

Definition fresh : Capture := init 8192000 50055 5.

(** RX is TX delayed by two samples. *)
Definition lagging_peer : peer :=
  {| accepts := true;
     script :=
       [Data (reply 5 100 0
                [(b0_125, 0); (b0_09375, 0); (b0_0625, 0); (0, 0); (0, 0)]
                100 0
                [(0, 0); (0, 0); (b0_125, 0); (b0_09375, 0); (b0_0625, 0)])] |}.

(** The peer announces two samples, sends the TX payload and the RX
    header in full, then one RX sample only, and closes. *)
Definition short_rx_peer : peer :=
  {| accepts := true;
     script :=
       [Data (reply 2 100 0 [(b0_0625, 0); (b0_0625, 0)] 100 0 [(b0_0625, 0)])] |}.

(** The peer announces two samples, sends one TX sample only, and
    closes. *)
Definition short_tx_peer : peer :=
  {| accepts := true;
     script := [Data (le32 2 ++ le32 100 ++ le32 0 ++ frame_bytes [(b0_0625, 0)])] |}.

(** The peer accepts the connection and closes it at once. *)
Definition closing_peer : peer := {| accepts := true; script := [] |}.

(** The peer replies with [num_samples = 0]. *)
Definition empty_peer : peer :=
  {| accepts := true; script := [Data (reply 0 100 0 [] 100 0 [])] |}.

(** The request as it goes out: the version byte and the count 5. *)
Definition request : list byte := [x01; x05; x00; x00; x00].

(** What [get_samples] returns on the lagging peer. *)
Definition lagging_result : samples :=
  {| txframe_aligned := [x0_125; x0_09375; x0_0625];
     tx_ts := timestamp 100 0;
     tx_median := F32.of_bits b0_0625;
     rxframe_aligned := [x0_125; x0_09375; x0_0625];
     rx_ts := timestamp 100 0;
     rx_median := F32.of_bits b0_0625 |}.

(** TX and RX of three samples, RX one sample late. *)
Definition tx3 : list sample := [x0_125; x0_09375; x0].
Definition rx3 : list sample := [x0; x0_125; x0_09375].

(** The reply of the lagging peer, one byte per segment. *)
Definition trickling_peer : peer :=
  {| accepts := true;
     script := map (fun b => Data [b]) (pending (script lagging_peer)) |}.

(** The bit patterns of the two frames of the lagging peer. *)
Definition tx5_bits : list (Z * Z) :=
  [(b0_125, 0); (b0_09375, 0); (b0_0625, 0); (0, 0); (0, 0)]%Z.
Definition rx5_bits : list (Z * Z) :=
  [(0, 0); (0, 0); (b0_125, 0); (b0_09375, 0); (b0_0625, 0)]%Z.

(** The edges of the bins, as [_bin_and_accumulate] computes them. *)
Definition edge (i : nat) : spec_float :=
  nth i (np_linspace (S754_zero false) (F64.of_Z 1) 64) S754_nan.

(** One capture from the lagging peer. *)
Definition after_capture : list call := [GetSamples lagging_peer].
End Fixtures.

(** * Properties *)

(** ** The monad *)
Section MonadFacts.
Context {S : Type}.

Lemma bind_ok {A B} (m : ST S A) (k : A -> ST S B) (s s' : S) (a : A) :
  m s = (Ok a, s') -> (m ≫= k) s = k a s'.
Proof. intros H. unfold mbind, st_bind. now rewrite H. Qed.

Lemma bind_raise {A B} (m : ST S A) (k : A -> ST S B) (s s' : S) (e : exn) :
  m s = (Raise e, s') -> (m ≫= k) s = (Raise e, s').
Proof. intros H. unfold mbind, st_bind. now rewrite H. Qed.

Lemma for_each_nil {A} (body : A -> ST S unit) (s : S) :
  for_each body [] s = (Ok tt, s).
Proof. reflexivity. Qed.

Lemma for_each_cons_ok {A} (body : A -> ST S unit) x l (s s' : S) :
  body x s = (Ok tt, s') -> for_each body (x :: l) s = for_each body l s'.
Proof. intros H. simpl. now rewrite (bind_ok _ _ _ _ _ H). Qed.

Lemma for_each_cons_raise {A} (body : A -> ST S unit) x l (s s' : S) e :
  body x s = (Raise e, s') -> for_each body (x :: l) s = (Raise e, s').
Proof. intros H. simpl. now rewrite (bind_raise _ _ _ _ _ H). Qed.
End MonadFacts.

(** ** Python slices *)
Section Slices.
Context {A : Type}.
Implicit Types a : list A.

Lemma slice_stop_nonneg a (k : Z) :
  (0 <= k)%Z -> slice_stop a k = take (Z.to_nat k) a.
Proof. intros H. unfold slice_stop. destruct (Z.ltb_spec k 0); [lia | easy]. Qed.

Lemma slice_stop_neg a (k : nat) :
  (0 < k)%nat -> slice_stop a (- Z.of_nat k) = take (length a - k) a.
Proof.
  intros H. unfold slice_stop. destruct (Z.ltb_spec (- Z.of_nat k) 0); [|lia].
  f_equal. lia.
Qed.

Lemma slice_start_nonneg a (k : nat) :
  slice_start a (Z.of_nat k) = drop k a.
Proof.
  unfold slice_start. destruct (Z.ltb_spec (Z.of_nat k) 0); [lia|].
  now rewrite Nat2Z.id.
Qed.
End Slices.

(** ** Amplitude binning *)

Lemma extend_bin_take (n_per_bin : Z) (bin cands : list sample_pair) :
  (Z.of_nat (length bin) <= n_per_bin)%Z ->
  extend_bin n_per_bin bin cands
  = bin ++ take (Z.to_nat (n_per_bin - Z.of_nat (length bin))) cands.
Proof.
  intros Hle. unfold extend_bin.
  set (k := Z.min _ _).
  assert (Hk : (0 <= k)%Z) by (unfold k; lia).
  destruct (Z.eqb_spec k 0) as [H0|H0].
  - assert (Hz : take (Z.to_nat (n_per_bin - Z.of_nat (length bin))) cands = []).
    { destruct (Z.min_spec (n_per_bin - Z.of_nat (length bin)) (Z.of_nat (length cands)))
        as [[_ Hm]|[_ Hm]]; fold k in Hm; rewrite H0 in Hm.
      - now rewrite <- Hm.
      - destruct cands; [now rewrite take_nil | simpl in Hm; lia]. }
    now rewrite Hz, app_nil_r.
  - rewrite slice_stop_nonneg by easy. f_equal.
    destruct (Z.min_spec (n_per_bin - Z.of_nat (length bin)) (Z.of_nat (length cands)))
      as [[_ Hm]|[Hc Hm]]; fold k in Hm; rewrite Hm; [easy|].
    rewrite Nat2Z.id. rewrite !take_ge; [easy | lia | lia].
Qed.

Lemma extend_bin_length (n_per_bin : Z) (bin cands : list sample_pair) :
  (Z.of_nat (length bin) <= n_per_bin)%Z ->
  (Z.of_nat (length (extend_bin n_per_bin bin cands)) <= n_per_bin)%Z.
Proof.
  intros Hle. rewrite extend_bin_take by easy.
  rewrite length_app, length_take. lia.
Qed.

Lemma extend_bin_full (n_per_bin : Z) (bin cands : list sample_pair) :
  Z.of_nat (length bin) = n_per_bin -> extend_bin n_per_bin bin cands = bin.
Proof.
  intros Hfull. rewrite extend_bin_take by lia.
  replace (n_per_bin - Z.of_nat (length bin))%Z with 0%Z by lia.
  simpl. now rewrite app_nil_r.
Qed.

Section Binning.
Context {P : Platform}.
Implicit Types tx rx : list sample.
Implicit Types bins : list (list sample_pair).

Lemma np_mask_ok {A} (a : list A) (mask : list bool) :
  length a = length mask ->
  np_mask a mask = Ok (map fst (filter (fun xm => Is_true xm.2) (zip a mask))).
Proof. intros H. unfold np_mask. now rewrite H, Nat.eqb_refl. Qed.

Lemma np_mask_mismatch {A} (a : list A) (mask : list bool) :
  length a <> length mask -> mask <> [] ->
  np_mask a mask = Raise BooleanIndexMismatch.
Proof.
  intros H Hne. unfold np_mask.
  destruct (Nat.eqb_spec (length a) (length mask)); [easy|].
  destruct mask; easy.
Qed.

(** The empty mask selects nothing, of an array of any length. *)
Lemma np_mask_empty {A} (a : list A) : np_mask a [] = Ok [].
Proof.
  unfold np_mask. rewrite zip_with_nil_r. cbn [length Nat.eqb].
  now rewrite orb_true_r.
Qed.

Lemma masked_pairs (f : sample -> bool) tx rx :
  length tx = length rx ->
  zip (map fst (filter (fun xm => Is_true xm.2) (zip tx (map f tx))))
      (map fst (filter (fun xm => Is_true xm.2) (zip rx (map f tx))))
  = filter (fun tr => Is_true (f tr.1)) (zip tx rx).
Proof.
  revert rx. induction tx as [|t tx IH]; intros [|r rx] Hlen; try easy.
  simpl in Hlen. injection Hlen as Hlen. specialize (IH rx Hlen).
  simpl. rewrite !filter_cons. simpl.
  destruct (f t); simpl; now rewrite IH.
Qed.

Lemma set_accumulated_bins_id (self : Capture) :
  set_accumulated_bins (accumulated_bins self) self = self.
Proof. now destruct self. Qed.

(** One turn of the loop, on frames of equal length. *)
Lemma bin_body_ok tx rx (i : nat) (lo hi : spec_float) (self : Capture) bin :
  length tx = length rx ->
  accumulated_bins self !! i = Some bin ->
  bin_body tx rx (i, (lo, hi)) self
  = (Ok tt,
     set_accumulated_bins
       (<[i := extend_bin (binning_n_per_bin self) bin (candidates tx rx lo hi)]>
          (accumulated_bins self)) self).
Proof.
  intros Hlen Hbin. unfold bin_body.
  rewrite map_map.
  rewrite !np_mask_ok by (rewrite length_map; congruence).
  unfold mbind, st_bind, lift, gets. cbv beta iota. rewrite Hbin.
  rewrite (masked_pairs (fun t => in_interval lo hi (cabs t))) by easy.
  fold (candidates tx rx lo hi). unfold extend_bin.
  destruct (Z.eqb _ 0).
  - unfold mret, st_ret. f_equal.
    rewrite list_insert_id by easy. now rewrite set_accumulated_bins_id.
  - reflexivity.
Qed.

(** One turn of the loop, on frames of different lengths, TX not empty:
    the RX mask raises before anything is stored. *)
Lemma bin_body_mismatch tx rx (it : nat * (spec_float * spec_float)) (self : Capture) :
  length tx <> length rx -> tx <> [] ->
  bin_body tx rx it self = (Raise BooleanIndexMismatch, self).
Proof.
  intros Hlen Hne. destruct it as [i [lo hi]]. unfold bin_body.
  rewrite map_map.
  rewrite (np_mask_ok tx) by now rewrite length_map.
  rewrite (np_mask_mismatch rx)
    by (try (rewrite length_map; congruence); now destruct tx).
  reflexivity.
Qed.

(** One turn of the loop on an empty TX frame: both masks are empty and
    nothing is selected, whatever the length of RX. *)
Lemma bin_body_empty_tx rx (i : nat) (lo hi : spec_float) (self : Capture) bin :
  accumulated_bins self !! i = Some bin ->
  bin_body [] rx (i, (lo, hi)) self = (Ok tt, self).
Proof.
  intros Hbin. unfold bin_body. cbn [map]. rewrite !np_mask_empty.
  unfold mbind, st_bind, lift, gets. cbv beta iota. rewrite Hbin.
  cbn [zip_with length].
  destruct (Z.eqb _ 0); [reflexivity|].
  assert (Hnone : forall k, slice_stop (@nil sample_pair) k = [])
    by (intros k; unfold slice_stop; destruct (k <? 0); apply take_nil).
  unfold modify. rewrite Hnone, app_nil_r, list_insert_id by easy.
  now rewrite set_accumulated_bins_id.
Qed.

(** One turn of the loop on an empty TX frame leaves the object as it
    is, also where the bin is missing. *)
Lemma bin_body_empty_tx_state rx (it : nat * (spec_float * spec_float)) (self : Capture) :
  (bin_body [] rx it self).2 = self.
Proof.
  destruct it as [i [lo hi]].
  destruct (accumulated_bins self !! i) as [bin|] eqn:Hbin.
  - now rewrite (bin_body_empty_tx rx i lo hi self bin Hbin).
  - unfold bin_body. cbn [map]. rewrite !np_mask_empty.
    unfold mbind, st_bind, lift, gets. cbv beta iota. now rewrite Hbin.
Qed.
End Binning.

Section Accumulate.
Context {P : Platform}.
Implicit Types tx rx : list sample.
Implicit Types bins : list (list sample_pair).
Implicit Types ivs : list (spec_float * spec_float).

Lemma accumulate_bins_length n_per_bin tx rx ivs bins :
  length (accumulate_bins n_per_bin tx rx ivs bins) = length bins.
Proof.
  revert bins. induction ivs as [|[lo hi] ivs IH]; intros [|bin bins]; simpl; auto.
Qed.

Lemma accumulate_bins_lookup n_per_bin tx rx ivs bins (i : nat) :
  accumulate_bins n_per_bin tx rx ivs bins !! i
  = match ivs !! i, bins !! i with
    | Some (lo, hi), Some bin =>
        Some (extend_bin n_per_bin bin (candidates tx rx lo hi))
    | _, b => b
    end.
Proof.
  revert bins i. induction ivs as [|[lo hi] ivs IH]; intros [|bin bins] [|i]; simpl;
    try reflexivity.
  - now destruct (ivs !! i) as [[? ?]|].
  - apply IH.
Qed.

Lemma set_accumulated_bins_twice bins bins' (self : Capture) :
  set_accumulated_bins bins (set_accumulated_bins bins' self)
  = set_accumulated_bins bins self.
Proof. reflexivity. Qed.

Lemma for_each_bin_body tx rx ivs (k n : nat) (self : Capture) :
  length tx = length rx ->
  (length ivs <= n)%nat ->
  (k + length ivs <= length (accumulated_bins self))%nat ->
  for_each (bin_body tx rx) (zip (seq k n) ivs) self
  = (Ok tt,
     set_accumulated_bins
       (take k (accumulated_bins self)
          ++ accumulate_bins (binning_n_per_bin self) tx rx ivs
               (drop k (accumulated_bins self))) self).
Proof.
  intros Hlen. revert k n self.
  induction ivs as [|[lo hi] ivs IH]; intros k n self Hn Hk.
  - rewrite zip_with_nil_r. simpl.
    now rewrite take_drop, set_accumulated_bins_id.
  - simpl in Hn, Hk. destruct n as [|n]; [lia|].
    destruct (lookup_lt_is_Some_2 (accumulated_bins self) k) as [bin Hbin]; [lia|].
    simpl zip.
    rewrite (for_each_cons_ok _ _ _ _ _ (bin_body_ok tx rx k lo hi self bin Hlen Hbin)).
    rewrite IH by (simpl; rewrite ?length_insert; lia).
    unfold set_accumulated_bins. cbn [accumulated_bins binning_n_per_bin].
    do 2 f_equal.
    rewrite (drop_S _ _ _ Hbin). simpl.
    rewrite take_insert_lt by lia.
    rewrite (take_S_r _ _ _ Hbin).
    rewrite insert_app_r_alt by (rewrite length_take; lia).
    rewrite length_take, Nat.min_l by lia. rewrite Nat.sub_diag. simpl.
    rewrite drop_insert_lt by lia.
    now rewrite <- app_assoc.
Qed.

Lemma for_each_bin_body_mismatch tx rx (its : list (nat * (spec_float * spec_float)))
    (self : Capture) :
  length tx <> length rx ->
  (for_each (bin_body tx rx) its self).2 = self.
Proof.
  intros Hlen. destruct tx as [|t tx].
  - clear Hlen. induction its as [|it its IH]; [reflexivity|].
    simpl. unfold mbind, st_bind.
    pose proof (bin_body_empty_tx_state rx it self) as Hit.
    destruct (bin_body [] rx it self) as [[[]|e] s1]; simpl in Hit; subst s1; easy.
  - destruct its as [|it its]; [reflexivity|].
    now rewrite (for_each_cons_raise _ _ _ _ _ _
                   (bin_body_mismatch (t :: tx) rx it self Hlen ltac:(discriminate))).
Qed.

Lemma bin_and_accumulate_unfold tx rx (self : Capture) :
  _bin_and_accumulate tx rx self
  = for_each (bin_body tx rx)
      (zip (seq 0 (length (bin_edges self))) (intervals self)) self.
Proof. reflexivity. Qed.

Lemma intervals_length (self : Capture) :
  length (intervals self) = (length (bin_edges self) - 1)%nat.
Proof.
  unfold intervals. rewrite length_zip_with.
  change 1%Z with (Z.of_nat 1). rewrite slice_start_nonneg, length_drop. lia.
Qed.

(** The effect of one call on frames of equal length. *)
Lemma bin_and_accumulate_ok tx rx (self : Capture) :
  length tx = length rx ->
  (length (intervals self) <= length (accumulated_bins self))%nat ->
  _bin_and_accumulate tx rx self
  = (Ok tt,
     set_accumulated_bins
       (accumulate_bins (binning_n_per_bin self) tx rx (intervals self)
          (accumulated_bins self)) self).
Proof.
  intros Hlen Hbins. rewrite bin_and_accumulate_unfold.
  rewrite for_each_bin_body; try easy.
  rewrite intervals_length. lia.
Qed.

(** The effect of one call on frames of different lengths. *)
Lemma bin_and_accumulate_mismatch tx rx (self : Capture) :
  length tx <> length rx -> (_bin_and_accumulate tx rx self).2 = self.
Proof.
  intros Hlen. rewrite bin_and_accumulate_unfold.
  now apply for_each_bin_body_mismatch.
Qed.
End Accumulate.

(** ** The state of the bins between calls *)
Section Invariant.
Context {P : Platform}.
Implicit Types tx rx : list sample.
Implicit Types bin : list sample_pair.
Implicit Types self : Capture.

Lemma well_formed_init (sr prt n : Z) : well_formed (init sr prt n).
Proof.
  split; unfold init; cbn [accumulated_bins]; try reflexivity.
  - apply Forall_replicate. simpl. lia.
  - intros i bin tr Hbin Hin. apply lookup_replicate in Hbin as [-> _].
    now apply elem_of_nil in Hin.
Qed.

Lemma wf_n_per_bin self : well_formed self -> binning_n_per_bin self = 128%Z.
Proof. intros [Hc _ _ _ _]. exact (f_equal binning_n_per_bin Hc). Qed.

Lemma wf_bin_edges self :
  well_formed self ->
  bin_edges self = np_linspace (S754_zero false) (F64.of_Z 1) 64.
Proof.
  intros [Hc _ _ _ _]. unfold bin_edges.
  change (binning_start self) with (binning_start (set_accumulated_bins [] self)).
  change (binning_end self) with (binning_end (set_accumulated_bins [] self)).
  change (binning_n_bins self) with (binning_n_bins (set_accumulated_bins [] self)).
  now rewrite Hc.
Qed.

Lemma wf_intervals_length self : well_formed self -> length (intervals self) = 63%nat.
Proof.
  intros Hwf. rewrite intervals_length, (wf_bin_edges self Hwf). reflexivity.
Qed.

Lemma bin_step_refl bin : (length bin <= 128)%nat -> bin_step bin bin.
Proof. intros H. repeat split; auto. Qed.

Lemma bin_step_trans bin1 bin2 bin3 :
  bin_step bin1 bin2 -> bin_step bin2 bin3 -> bin_step bin1 bin3.
Proof.
  intros (Hp1 & Hl1 & Hf1) (Hp2 & Hl2 & Hf2). repeat split; auto.
  - now transitivity bin2.
  - intros Hfull. rewrite (Hf1 Hfull) in *. auto.
Qed.

Lemma bin_step_extend bin cands :
  (length bin <= 128)%nat -> bin_step bin (extend_bin 128 bin cands).
Proof.
  intros Hle. repeat split.
  - rewrite extend_bin_take by lia. now apply prefix_app_r.
  - pose proof (extend_bin_length 128 bin cands). lia.
  - intros Hfull. apply extend_bin_full. lia.
Qed.

Lemma accumulate_bins_step tx rx ivs (bins : list (list sample_pair)) :
  Forall (fun bin => (length bin <= 128)%nat) bins ->
  Forall2 bin_step bins (accumulate_bins 128 tx rx ivs bins).
Proof.
  revert bins. induction ivs as [|[lo hi] ivs IH]; intros bins Hcap.
  - destruct bins; simpl; [constructor|].
    apply Forall_Forall2_diag. eapply Forall_impl; [exact Hcap|].
    intros bin Hb. now apply bin_step_refl.
  - destruct bins as [|bin bins]; simpl; [constructor|].
    apply Forall_cons in Hcap as [Hb Hcap].
    constructor; [now apply bin_step_extend | now apply IH].
Qed.

Lemma Forall2_bin_step_capacity (bins bins' : list (list sample_pair)) :
  Forall2 bin_step bins bins' ->
  Forall (fun bin => (length bin <= 128)%nat) bins'.
Proof. induction 1 as [|? ? ? ? (_ & Hl & _)]; constructor; auto. Qed.

(** One call keeps the object well formed and moves every bin by
    [bin_step]. *)
Lemma bin_and_accumulate_wf tx rx self :
  well_formed self ->
  well_formed (_bin_and_accumulate tx rx self).2
  /\ Forall2 bin_step (accumulated_bins self)
       (accumulated_bins (_bin_and_accumulate tx rx self).2).
Proof.
  intros Hwf.
  destruct (decide (length tx = length rx)) as [Hlen|Hlen].
  - rewrite bin_and_accumulate_ok by
      (try easy; rewrite (wf_intervals_length _ Hwf), (wf_count _ Hwf); lia).
    rewrite (wf_n_per_bin _ Hwf).
    pose proof (accumulate_bins_step tx rx (intervals self) _ (wf_capacity _ Hwf))
      as Hstep.
    split; [|exact Hstep]. cbn [snd].
    destruct Hwf as [Hc Hn Hcap Hlast Hmem].
    split; cbn [accumulated_bins set_accumulated_bins].
    + exact Hc.
    + now rewrite accumulate_bins_length.
    + now apply Forall2_bin_step_capacity in Hstep.
    + rewrite accumulate_bins_lookup, Hlast.
      rewrite (lookup_ge_None_2 (intervals self)); [easy|].
      rewrite intervals_length, (wf_bin_edges self); [|now split]. simpl. lia.
    + intros i bin tr Hbin Hin.
      rewrite accumulate_bins_lookup in Hbin.
      change (intervals (set_accumulated_bins _ self)) with (intervals self).
      destruct (intervals self !! i) as [[lo hi]|] eqn:Hiv.
      * destruct (accumulated_bins self !! i) as [bin0|] eqn:Hb0; [|easy].
        injection Hbin as <-.
        assert (Hle : (length bin0 <= 128)%nat).
        { eapply Forall_lookup_1 in Hcap; eauto. }
        rewrite extend_bin_take in Hin by lia.
        apply elem_of_app in Hin as [Hin|Hin].
        -- destruct (Hmem i bin0 tr Hb0 Hin) as (lo' & hi' & Hiv' & Hok).
           rewrite Hiv in Hiv'. eauto.
        -- exists lo, hi. split; [easy|].
           apply elem_of_take in Hin as (j & Hj & _).
           apply list_elem_of_lookup_2 in Hj.
           apply list_elem_of_filter in Hj as [Hj _].
           now apply Is_true_eq_true.
      * destruct (Hmem i bin tr Hbin Hin) as (lo' & hi' & Hiv' & _).
        congruence.
  - rewrite bin_and_accumulate_mismatch by easy. split; [easy|].
    apply Forall_Forall2_diag. eapply Forall_impl; [exact (wf_capacity _ Hwf)|].
    intros bin Hb. now apply bin_step_refl.
Qed.

Lemma run_accumulate_snoc frames tx rx self :
  run_accumulate (frames ++ [(tx, rx)]) self
  = (_bin_and_accumulate tx rx (run_accumulate frames self)).2.
Proof. unfold run_accumulate. now rewrite foldl_snoc. Qed.

Lemma run_accumulate_app frames1 frames2 self :
  run_accumulate (frames1 ++ frames2) self
  = run_accumulate frames2 (run_accumulate frames1 self).
Proof. unfold run_accumulate. now rewrite foldl_app. Qed.

Lemma run_accumulate_wf frames self :
  well_formed self ->
  well_formed (run_accumulate frames self)
  /\ Forall2 bin_step (accumulated_bins self)
       (accumulated_bins (run_accumulate frames self)).
Proof.
  intros Hwf. induction frames as [|[tx rx] frames IH] using rev_ind.
  - split; [easy|]. apply Forall_Forall2_diag.
    eapply Forall_impl; [exact (wf_capacity _ Hwf)|].
    intros bin Hb. now apply bin_step_refl.
  - destruct IH as [Hwf' Hstep]. rewrite run_accumulate_snoc.
    destruct (bin_and_accumulate_wf tx rx _ Hwf') as [Hwf'' Hstep'].
    split; [easy|].
    eapply Forall2_trans; [|exact Hstep|exact Hstep'].
    intros ? ? ?. apply bin_step_trans.
Qed.
End Invariant.

(** ** Claims on the bins *)
Section BinClaims.
Context {P : Platform}.
Implicit Types tx rx : list sample.
Implicit Types bin : list sample_pair.

Lemma sum_lengths_le (bins bins' : list (list sample_pair)) :
  Forall2 bin_step bins bins' ->
  (sum_list (map length bins) <= sum_list (map length bins'))%nat.
Proof.
  induction 1 as [|bin bin' bins bins' (Hp & _ & _) _ IH]; simpl; [lia|].
  apply prefix_length in Hp. lia.
Qed.

Lemma sum_lengths_bound (bins : list (list sample_pair)) :
  Forall (fun bin => (length bin <= 128)%nat) bins ->
  (sum_list (map length bins) <= length bins * 128)%nat.
Proof. induction 1; simpl; lia. Qed.

Lemma wf_total (self : Capture) :
  well_formed self -> (sum_list (bin_histogram self) <= 63 * 128)%nat.
Proof.
  intros [_ Hn Hcap Hlast _]. unfold bin_histogram.
  rewrite <- (take_ge (accumulated_bins self) 64) by lia.
  rewrite (take_S_r _ _ _ Hlast), map_app, sum_list_with_app. simpl.
  pose proof (sum_lengths_bound (take 63 (accumulated_bins self))
                (Forall_take _ _ _ Hcap)) as Hb.
  rewrite length_take in Hb. lia.
Qed.

Lemma intervals_lookup (self : Capture) (i : nat) lo hi :
  intervals self !! i = Some (lo, hi)
  <-> bin_edges self !! i = Some lo /\ bin_edges self !! S i = Some hi.
Proof.
  unfold intervals. change 1%Z with (Z.of_nat 1). rewrite slice_start_nonneg.
  rewrite lookup_zip_with_Some, lookup_drop. simpl. split.
  - intros (x & y & Heq & Hx & Hy). now injection Heq as -> ->.
  - intros [Hx Hy]. eauto.
Qed.

(** C3: whatever [_bin_and_accumulate] calls have been made, no bin holds
    more than 128 pairs; whatever calls follow, every bin keeps the pairs it
    had as a prefix (none removed, none reordered), still holds at most 128,
    and a bin that was full is unchanged. *)
Theorem bins_bounded_prefix_frozen (sr prt n : Z)
    (frames1 frames2 : list (list sample * list sample)) :
  let before := run_accumulate frames1 (init sr prt n) in
  let after := run_accumulate frames2 before in
  Forall (fun bin => (length bin <= 128)%nat) (accumulated_bins before)
  /\ Forall2 (fun bin bin' =>
                bin `prefix_of` bin' /\ (length bin' <= 128)%nat
                /\ (length bin = 128%nat -> bin' = bin))
       (accumulated_bins before) (accumulated_bins after).
Proof.
  intros before after.
  destruct (run_accumulate_wf frames1 _ (well_formed_init sr prt n)) as [Hwf _].
  destruct (run_accumulate_wf frames2 _ Hwf) as [_ Hstep].
  split; [exact (wf_capacity _ Hwf) | exact Hstep].
Qed.

(** C8: across any sequence of [_bin_and_accumulate] calls the sum of the
    bin lengths never decreases and never exceeds 63 * 128. *)
Theorem total_count_monotone_bounded (sr prt n : Z)
    (frames1 frames2 : list (list sample * list sample)) :
  let before := run_accumulate frames1 (init sr prt n) in
  let after := run_accumulate frames2 before in
  (sum_list (bin_histogram before) <= sum_list (bin_histogram after))%nat
  /\ (sum_list (bin_histogram after) <= 63 * 128)%nat.
Proof.
  intros before after.
  destruct (run_accumulate_wf frames1 _ (well_formed_init sr prt n)) as [Hwf _].
  destruct (run_accumulate_wf frames2 _ Hwf) as [Hwf' Hstep].
  split; [now apply sum_lengths_le | now apply wf_total].
Qed.

(** C9, as the code has it: after every [_bin_and_accumulate] call, each
    pair stored in bin [i] has a TX magnitude that passed the test of the
    code for that bin, [edge[i] < |tx| <= edge[i+1]] evaluated in binary32
    with the two edges rounded to binary32; on frames of equal length the
    call appends to bin [i] the first [128 - count] pairs of [zip tx rx]
    that pass this test (all of them when there are fewer), in the order of
    the sample index, and it leaves a bin without an interval as it is; on
    frames of different lengths it changes nothing. *)
Theorem stored_pairs_in_interval_in_order (sr prt n : Z)
    (frames : list (list sample * list sample)) tx rx :
  let self := run_accumulate frames (init sr prt n) in
  let self' := (_bin_and_accumulate tx rx self).2 in
  (forall (i : nat) bin (tr : sample_pair),
      accumulated_bins self' !! i = Some bin -> tr ∈ bin ->
      exists lo hi,
        bin_edges self' !! i = Some lo /\ bin_edges self' !! S i = Some hi
        /\ SFltb (F32.of_f64 lo) (cabs tr.1) = true
        /\ SFleb (cabs tr.1) (F32.of_f64 hi) = true)
  /\ (length tx = length rx ->
      forall (i : nat) bin,
        accumulated_bins self !! i = Some bin ->
        accumulated_bins self' !! i
        = Some (bin ++ take (128 - length bin)
                  match bin_edges self !! i, bin_edges self !! S i with
                  | Some lo, Some hi =>
                      filter (fun tr => Is_true (in_interval lo hi (cabs tr.1)))
                             (zip tx rx)
                  | _, _ => []
                  end))
  /\ (length tx <> length rx -> self' = self).
Proof.
  intros self self'.
  destruct (run_accumulate_wf frames _ (well_formed_init sr prt n)) as [Hwf _].
  fold self in Hwf.
  destruct (bin_and_accumulate_wf tx rx self Hwf) as [Hwf' _]. fold self' in Hwf'.
  split; [|split].
  - intros i bin tr Hbin Hin.
    destruct (wf_member _ Hwf' i bin tr Hbin Hin) as (lo & hi & Hiv & Hok).
    apply intervals_lookup in Hiv as [Hlo Hhi].
    unfold in_interval in Hok. apply andb_true_iff in Hok as [Hlt Hle]. eauto 6.
  - intros Hlen i bin Hbin. unfold self'.
    rewrite bin_and_accumulate_ok by
      (try easy; rewrite (wf_intervals_length _ Hwf), (wf_count _ Hwf); lia).
    cbn [snd accumulated_bins set_accumulated_bins].
    rewrite accumulate_bins_lookup, (wf_n_per_bin _ Hwf), Hbin.
    pose proof (Forall_lookup_1 _ _ _ _ (wf_capacity _ Hwf) Hbin) as Hcap.
    cbv beta in Hcap.
    destruct (intervals self !! i) as [[lo hi]|] eqn:Hiv.
    + apply intervals_lookup in Hiv as [-> ->].
      rewrite extend_bin_take by lia. do 3 f_equal. lia.
    + assert (Hnone : match bin_edges self !! i, bin_edges self !! S i with
                      | Some lo, Some hi =>
                          filter (fun tr : sample_pair =>
                                    Is_true (in_interval lo hi (cabs tr.1)))
                                 (zip tx rx)
                      | _, _ => []
                      end = []).
      { destruct (bin_edges self !! i) as [lo|] eqn:Hlo; [|reflexivity].
        destruct (bin_edges self !! S i) as [hi|] eqn:Hhi; [|reflexivity].
        assert (Hsome : intervals self !! i = Some (lo, hi))
          by (apply intervals_lookup; split; assumption).
        rewrite Hsome in Hiv. discriminate Hiv. }
      rewrite Hnone. now rewrite take_nil, app_nil_r.
  - intros Hlen. now apply bin_and_accumulate_mismatch.
Qed.

(** C4, as the code has it: the object holds 64 bins at all times and
    [bin_histogram] returns one count per bin, 64 counts, the count of bin
    [i] at index [i]. *)
Theorem bins_and_histogram_count (sr prt n : Z)
    (frames : list (list sample * list sample)) :
  let self := run_accumulate frames (init sr prt n) in
  length (accumulated_bins self) = binning_n_bins self
  /\ length (accumulated_bins self) = 64%nat
  /\ length (bin_histogram self) = 64%nat
  /\ (forall i : nat,
        bin_histogram self !! i = length <$> (accumulated_bins self !! i)).
Proof.
  intros self.
  destruct (run_accumulate_wf frames _ (well_formed_init sr prt n)) as [Hwf _].
  fold self in Hwf. repeat split.
  - rewrite (wf_count _ Hwf). symmetry.
    exact (f_equal binning_n_bins (wf_config _ Hwf)).
  - exact (wf_count _ Hwf).
  - unfold bin_histogram. rewrite length_map. exact (wf_count _ Hwf).
  - intros i. unfold bin_histogram. apply list_lookup_fmap.
Qed.
End BinClaims.

(** C4, as the spec has it, fails on a fresh object: there are 64 bins and 64
    counts, not 63. *)
Lemma bins_are_not_63 :
  ~ (length (accumulated_bins (init 8192000 50055 4096)) = 63%nat
     /\ length (bin_histogram (init 8192000 50055 4096)) = 63%nat).
Proof. intros [H _]. vm_compute in H. discriminate. Qed.

(** ** The receive loop and the socket *)
Section Socket.
Implicit Types s : socket.

Lemma recv_from_length (evs evs' : list event) (n : nat) (b : list byte) :
  recv_from evs n = (Ok b, evs') -> (length b <= n)%nat.
Proof.
  induction evs as [|[bs|] evs IH]; simpl.
  - intros [= <- _]. simpl. lia.
  - destruct bs as [|x bs]; [exact IH|].
    destruct (Nat.leb_spec (length (x :: bs)) n) as [Hle|Hgt].
    + now intros [= <- _].
    + intros [= <- _]. rewrite length_take. lia.
  - discriminate.
Qed.

Lemma recv_length (n : nat) s s' (b : list byte) :
  recv n s = (Ok b, s') -> (length b <= n)%nat.
Proof.
  unfold recv. destruct (recv_from (inbox s) n) as [r evs] eqn:Hr.
  intros [= -> _]. eapply recv_from_length; eauto.
Qed.

(** The loop of [_recv_exact] never needs more turns than bytes asked
    for: any larger number of turns gives the same run. *)
Lemma recv_loop_fuel (fuel1 fuel2 num_bytes : nat) (bufs : list (list byte)) s :
  (num_bytes <= fuel1)%nat -> (num_bytes <= fuel2)%nat ->
  recv_loop fuel1 num_bytes bufs s = recv_loop fuel2 num_bytes bufs s.
Proof.
  revert fuel2 num_bytes bufs s.
  induction fuel1 as [|fuel1 IH]; intros fuel2 num_bytes bufs s H1 H2.
  - assert (num_bytes = 0%nat) as -> by lia. now destruct fuel2.
  - destruct fuel2 as [|fuel2].
    + assert (num_bytes = 0%nat) as -> by lia. reflexivity.
    + simpl. destruct (Nat.ltb_spec 0 num_bytes) as [Hpos|Hz]; [|reflexivity].
      unfold mbind, st_bind.
      destruct (recv num_bytes s) as [[b|e] s'] eqn:Hrecv; [|reflexivity].
      destruct (Nat.eqb_spec (length b) 0) as [Hb|Hb]; [reflexivity|].
      apply IH; lia.
Qed.

(** The bytes returned by [_recv_exact] never exceed the number asked
    for. *)
Lemma recv_loop_length (fuel num_bytes : nat) (bufs bufs' : list (list byte)) s s' :
  recv_loop fuel num_bytes bufs s = (Ok bufs', s') ->
  (length (concat bufs') <= length (concat bufs) + num_bytes)%nat.
Proof.
  revert num_bytes bufs s. induction fuel as [|fuel IH]; intros num_bytes bufs s; simpl.
  - intros [= <- _]. lia.
  - destruct (Nat.ltb_spec 0 num_bytes) as [Hpos|Hz]; [|intros [= <- _]; lia].
    unfold mbind, st_bind.
    destruct (recv num_bytes s) as [[b|e] s1] eqn:Hrecv; [|discriminate].
    destruct (Nat.eqb_spec (length b) 0) as [Hb|Hb]; [intros [= <- _]; lia|].
    intros Hloop. apply IH in Hloop. apply recv_length in Hrecv.
    rewrite concat_app, length_app in Hloop. simpl in Hloop.
    rewrite app_nil_r in Hloop. lia.
Qed.

Lemma keeps_open_bind {A B} (m : IO A) (k : A -> IO B) :
  keeps_open m -> (forall a, keeps_open (k a)) -> keeps_open (m ≫= k).
Proof.
  intros Hm Hk s Hs. specialize (Hm s Hs). unfold mbind, st_bind.
  destruct (m s) as [[a|e] s1]; [now apply Hk | easy].
Qed.

Lemma closes_iff_ok_bind {A B} (m : IO A) (k : A -> IO B) :
  keeps_open m -> (forall a, closes_iff_ok (k a)) -> closes_iff_ok (m ≫= k).
Proof.
  intros Hm Hk s Hs. specialize (Hm s Hs). unfold mbind, st_bind.
  destruct (m s) as [[a|e] s1]; [now apply Hk | easy].
Qed.

Lemma keeps_open_lift {A} (r : result A) : keeps_open (lift r).
Proof. now intros s Hs. Qed.

Lemma keeps_open_ret {A} (a : A) : keeps_open (mret a).
Proof. now intros s Hs. Qed.

Lemma keeps_open_raise {A} (e : exn) : keeps_open (@raise socket A e).
Proof. now intros s Hs. Qed.

Lemma keeps_open_connect (p : peer) : keeps_open (connect p).
Proof. intros s Hs. unfold connect. now destruct (accepts p). Qed.

Lemma keeps_open_sendall (data : list byte) : keeps_open (sendall data).
Proof. now intros s Hs. Qed.

Lemma keeps_open_recv (n : nat) : keeps_open (recv n).
Proof. intros s Hs. unfold recv. now destruct (recv_from (inbox s) n). Qed.

Lemma keeps_open_recv_loop (fuel num_bytes : nat) (bufs : list (list byte)) :
  keeps_open (recv_loop fuel num_bytes bufs).
Proof.
  revert num_bytes bufs. induction fuel as [|fuel IH]; intros num_bytes bufs; simpl.
  - apply keeps_open_ret.
  - destruct (0 <? num_bytes)%nat; [|apply keeps_open_ret].
    apply keeps_open_bind; [apply keeps_open_recv|].
    intros b. destruct (length b =? 0)%nat; [apply keeps_open_ret | apply IH].
Qed.

Lemma keeps_open_recv_exact (num_bytes : nat) : keeps_open (_recv_exact num_bytes).
Proof.
  apply keeps_open_bind; [apply keeps_open_recv_loop | intros; apply keeps_open_ret].
Qed.
End Socket.

Create HintDb sock.
#[local] Hint Resolve keeps_open_lift keeps_open_ret keeps_open_raise
  keeps_open_connect keeps_open_sendall keeps_open_recv_exact : sock.

Section ReceiveTcp.
Context {P : Platform} {FA : FineAlign}.

Lemma keeps_open_recv_frame (self : Capture) (num_samps : Z) :
  keeps_open (recv_frame self num_samps).
Proof.
  unfold recv_frame. destruct (num_samps >? 0)%Z; auto with sock.
  apply keeps_open_bind; auto with sock.
Qed.

Lemma keeps_open_debug_stats (frame : list sample) : keeps_open (debug_stats frame).
Proof.
  unfold debug_stats. destruct log_debug; auto with sock.
  destruct frame; auto with sock.
Qed.

Lemma closes_iff_ok_close {A} (a : A) : closes_iff_ok (close;; mret a).
Proof. now intros s Hs. Qed.

(** [receive_tcp] closes its socket when it returns normally and on no
    other path. *)
Lemma receive_tcp_closes_iff_ok (self : Capture) (p : peer) :
  is_open (receive_tcp self p).2 = negb (is_ok (receive_tcp self p).1).
Proof.
  unfold receive_tcp. generalize new_socket (eq_refl : is_open new_socket = true).
  change (closes_iff_ok (receive_tcp_on self p)). unfold receive_tcp_on.
  repeat first
    [ apply closes_iff_ok_close
    | apply closes_iff_ok_bind;
      [ auto using keeps_open_recv_frame, keeps_open_debug_stats with sock
      | intros; repeat case_match ] ].
Qed.

Lemma u32_zero : u32 x00 x00 x00 x00 = 0%Z.
Proof. unfold u32. now destruct big_endian. Qed.

(** A reply with [num_samples = 0], delivered in one segment, makes
    [receive_tcp] return two empty buffers, on either byte order, when the
    logging level is above DEBUG. *)
Lemma receive_tcp_zero_samples (self : Capture)
    (a0 a1 a2 a3 a4 a5 a6 a7 b0 b1 b2 b3 b4 b5 b6 b7 : byte) :
  log_debug = false ->
  is_ok (pack_I (num_samples_to_request self)) = true ->
  (receive_tcp self
     {| accepts := true;
        script := [Data [x00; x00; x00; x00; a0; a1; a2; a3; a4; a5; a6; a7;
                         b0; b1; b2; b3; b4; b5; b6; b7]] |}).1
  = Ok ([], timestamp (u32 a0 a1 a2 a3) (u32 a4 a5 a6 a7),
        [], timestamp (u32 b0 b1 b2 b3) (u32 b4 b5 b6 b7)).
Proof.
  intros Hdbg Hreq.
  unfold receive_tcp, receive_tcp_on.
  destruct (pack_I (num_samples_to_request self)) as [req|] eqn:Hp; [|discriminate].
  unfold mbind, st_bind, connect, sendall, lift, _recv_exact. simpl.
  unfold mbind, st_bind, recv. simpl.
  rewrite u32_zero. simpl. unfold debug_stats. rewrite Hdbg. simpl.
  reflexivity.
Qed.
End ReceiveTcp.

Section SocketClaims.
Import Fixtures.
#[local] Existing Instance Ref.platform.
#[local] Existing Instance Ref.fine_align.

(** C2, at a failing input: the peer closes after one of the two announced
    RX samples; [receive_tcp] returns normally, with two TX samples and one
    RX sample. *)
Theorem short_rx_payload_is_accepted :
  receive_tcp fresh short_rx_peer
  = (Ok ([x0_0625; x0_0625], timestamp 100 0, [x0_0625], timestamp 100 0),
     {| inbox := []; outbox := request; is_open := false |}).
Proof. vm_compute. reflexivity. Qed.

(** The same cut in the TX payload is caught, by the [struct.unpack] of the
    RX header that follows. *)
Lemma short_tx_payload_raises :
  (receive_tcp fresh short_tx_peer).1 = Raise StructError.
Proof. vm_compute. reflexivity. Qed.

(** C7, at a failing input: the peer closes at once; [receive_tcp] raises
    from [struct.unpack] and the socket it opened is still open. *)
Theorem socket_left_open_on_error :
  receive_tcp fresh closing_peer
  = (Raise StructError, {| inbox := []; outbox := request; is_open := true |}).
Proof. vm_compute. reflexivity. Qed.
End SocketClaims.

(** ** The amplitude guard *)
Section Guard.
Context {P : Platform} {FA : FineAlign}.
Implicit Types self : Capture.
Implicit Types tx rx : list sample.


Lemma SFltb_nan_l (x : spec_float) : SFltb S754_nan x = false.
Proof. reflexivity. Qed.



Lemma init_median_max (sr prt n : Z) bins :
  median_max (set_accumulated_bins bins (init sr prt n)) = F64.mul lit_0_05 lit_1_4.
Proof. reflexivity. Qed.

Lemma init_median_min (sr prt n : Z) bins :
  median_min (set_accumulated_bins bins (init sr prt n)) = F64.div lit_0_05 lit_1_4.
Proof. reflexivity. Qed.





(** [get_samples], one stage after the other. *)
Lemma get_samples_unfold (p : peer) self :
  get_samples p self
  = match (receive_tcp self p).1 with
    | Raise e => (Raise e, self)
    | Ok (txframe, tx_ts0, rxframe, rx_ts0) =>
        match normalize self txframe rxframe with
        | Raise e => (Raise e, self)
        | Ok (rx_scaled, tx_med, rx_med) =>
            align_and_bin txframe rx_scaled tx_ts0 rx_ts0 tx_med rx_med self
        end
    end.
Proof.
  unfold get_samples, mbind, st_bind, lift, gets. simpl.
  destruct (receive_tcp self p).1 as [[[[txframe tx_ts0] rxframe] rx_ts0]|e]; [|reflexivity].
  now destruct (normalize self txframe rxframe) as [[[rx_scaled tx_med] rx_med]|e].
Qed.



End Guard.

(** ** Coarse alignment *)

Section CoarseAlign.
Context {P : Platform}.
Implicit Types tx rx : list sample.

Lemma slice_stop_neg_abs {A} (a : list A) (z : Z) :
  (z <> 0)%Z -> slice_stop a (- Z.abs z) = drop_last (Z.abs_nat z) a.
Proof.
  intros Hz. rewrite <- Zabs2Nat.id_abs. apply slice_stop_neg. lia.
Qed.

Lemma slice_start_abs {A} (a : list A) (z : Z) :
  slice_start a (Z.abs z) = drop (Z.abs_nat z) a.
Proof. rewrite <- Zabs2Nat.id_abs. apply slice_start_nonneg. Qed.

Lemma slice_stop_minus_one {A} (a : list A) : slice_stop a (-1) = drop_last 1 a.
Proof. exact (slice_stop_neg a 1 Nat.lt_0_1). Qed.

Lemma mod_2_odd (z : Z) : (z mod 2 =? 1)%Z = Z.odd z.
Proof. rewrite Zmod_odd. now destruct (Z.odd z). Qed.

Lemma argmax_from_bound (l : list spec_float) (i best_i : nat) (best : spec_float) :
  (best_i < i)%nat -> (argmax_from l i best_i best < i + length l)%nat.
Proof.
  revert i best_i best. induction l as [|x l IH]; intros i best_i best Hlt; simpl; [lia|].
  destruct (is_nan best); [lia|].
  destruct (negb (SFleb x best)).
  - specialize (IH (S i) i x). lia.
  - specialize (IH (S i) best_i best). lia.
Qed.

Lemma signal_correlate_ok rx tx :
  rx <> [] -> tx <> [] -> signal_correlate rx tx = Ok (correlate rx tx).
Proof. now destruct rx, tx. Qed.

Lemma signal_correlate_inv rx tx (c : list sample) :
  signal_correlate rx tx = Ok c -> rx <> [] /\ tx <> [] /\ c = correlate rx tx.
Proof. destruct rx, tx; try discriminate. now intros [= <-]. Qed.

Lemma coarse_align_crop tx rx (k : nat) :
  tx <> [] -> rx <> [] ->
  np_argmax (map cabs (correlate rx tx)) = Ok k ->
  coarse_align tx rx
  = Ok (crop_by_offset (Z.of_nat k - (Z.of_nat (length tx) - 1)) tx rx).
Proof.
  intros Htx Hrx Hk. unfold coarse_align.
  rewrite (signal_correlate_ok rx tx Hrx Htx). cbn [mbind result_bind].
  rewrite Hk. unfold mbind, result_bind.
  replace (Z.of_nat k - Z.of_nat (length tx) + 1)%Z
    with (Z.of_nat k - (Z.of_nat (length tx) - 1))%Z by lia.
  set (offset := (Z.of_nat k - (Z.of_nat (length tx) - 1))%Z).
  unfold crop_by_offset. rewrite mod_2_odd, Z.gtb_ltb.
  destruct (Z.ltb_spec 0 offset) as [Hpos|Hnp].
  - rewrite slice_stop_neg_abs, slice_start_abs by lia.
    destruct (Z.odd (Z.abs offset)); [|reflexivity].
    now rewrite !slice_stop_minus_one.
  - destruct (Z.ltb_spec offset 0) as [Hneg|Hnn].
    + rewrite slice_stop_neg_abs, slice_start_abs by lia.
      destruct (Z.odd (Z.abs offset)); [|reflexivity].
      now rewrite !slice_stop_minus_one.
    + destruct (Z.odd (Z.abs offset)); [|reflexivity].
      now rewrite !slice_stop_minus_one.
Qed.

Lemma crop_by_offset_length (offset : Z) tx rx :
  length tx = length rx ->
  length (crop_by_offset offset tx rx).1 = length (crop_by_offset offset tx rx).2.
Proof.
  intros Hlen. unfold crop_by_offset, drop_last.
  destruct (0 <? offset)%Z; [|destruct (offset <? 0)%Z];
    destruct (Z.odd (Z.abs offset)); simpl;
    rewrite ?length_take, ?length_drop, ?length_take, ?length_drop; lia.
Qed.

(** C6: for two non-empty buffers of equal length, and a correlation of
    full length, [coarse_align] finds the index of the maximum magnitude of
    the correlation of RX against TX, takes
    [offset = argmax_index - (len(tx) - 1)], and returns the two buffers
    cropped by the rule of the specification; the two results have the same
    length. *)
Theorem coarse_align_crops_by_offset tx rx :
  length tx = length rx ->
  tx <> [] ->
  length (correlate rx tx) = (length rx + length tx - 1)%nat ->
  exists argmax_index : nat,
    np_argmax (map cabs (correlate rx tx)) = Ok argmax_index
    /\ (argmax_index < length rx + length tx - 1)%nat
    /\ let offset := (Z.of_nat argmax_index - (Z.of_nat (length tx) - 1))%Z in
       coarse_align tx rx = Ok (crop_by_offset offset tx rx)
       /\ length (crop_by_offset offset tx rx).1
          = length (crop_by_offset offset tx rx).2.
Proof.
  intros Hlen Hne Hfull.
  assert (Hc : length (map cabs (correlate rx tx)) = (length rx + length tx - 1)%nat)
    by now rewrite length_map.
  destruct (map cabs (correlate rx tx)) as [|x c] eqn:Hmap.
  { destruct tx; [easy | simpl in *; lia]. }
  exists (argmax_from c 1 0 x). split; [reflexivity|]. split.
  - rewrite <- Hc. simpl. apply argmax_from_bound; lia.
  - split.
    + apply coarse_align_crop; [exact Hne | now destruct rx, tx | now rewrite Hmap].
    + now apply crop_by_offset_length.
Qed.
End CoarseAlign.

(** ** The order of the stages of [get_samples] *)
Section StageOrder.
Context {P : Platform} {FA : FineAlign}.

Lemma normalize_ok (self : Capture) (tx rx rx_scaled : list sample)
    (tx_med rx_med : spec_float) :
  normalize self tx rx = Ok (rx_scaled, tx_med, rx_med) ->
  tx_med = np_median (map cabs tx)
  /\ rx_med = np_median (map cabs rx)
  /\ rx_scaled = map (fun x => cmul_real (cdiv_real x rx_med) tx_med) rx.
Proof.
  unfold normalize. repeat case_match; try discriminate.
  now intros [= <- <- <-].
Qed.

(** C1, as the code has it: in every call of [get_samples] that returns
    normally the stages are, in this order, the protocol capture, the
    normalization of the buffers as received (both medians are those of the
    received buffers and RX is rescaled), the coarse and fine alignment of TX
    and the rescaled RX, and the binning of the aligned buffers. *)
Theorem get_samples_stage_order (p : peer) (self self' : Capture) (r : samples) :
  get_samples p self = (Ok r, self') ->
  exists (txframe rxframe rx_scaled : list sample),
    (receive_tcp self p).1 = Ok (txframe, tx_ts r, rxframe, rx_ts r)
    /\ normalize self txframe rxframe = Ok (rx_scaled, tx_median r, rx_median r)
    /\ tx_median r = np_median (map cabs txframe)
    /\ rx_median r = np_median (map cabs rxframe)
    /\ rx_scaled
       = map (fun x => cmul_real (cdiv_real x (rx_median r)) (tx_median r)) rxframe
    /\ align_samples txframe rx_scaled = Ok (txframe_aligned r, rxframe_aligned r)
    /\ _bin_and_accumulate (txframe_aligned r) (rxframe_aligned r) self = (Ok tt, self').
Proof.
  rewrite get_samples_unfold.
  destruct (receive_tcp self p).1 as [[[[txframe tx_ts0] rxframe] rx_ts0]|e];
    [|discriminate].
  destruct (normalize self txframe rxframe) as [[[rx_scaled tx_med] rx_med]|e] eqn:Hn;
    [|discriminate].
  unfold align_and_bin, mbind, st_bind, lift.
  destruct (align_samples txframe rx_scaled) as [[tx_al rx_al]|e] eqn:Ha;
    [|discriminate].
  destruct (_bin_and_accumulate tx_al rx_al self) as [[[]|e] s1] eqn:Hb;
    [|discriminate].
  intros [= <- <-]. simpl.
  destruct (normalize_ok _ _ _ _ _ _ Hn) as (Ht & Hr & Hs).
  exists txframe, rxframe, rx_scaled.
  repeat split; try reflexivity; assumption.
Qed.
End StageOrder.

(** ** The claims on concrete captures *)
Section Examples.
Import Fixtures.
#[local] Existing Instance Ref.platform.
#[local] Existing Instance Ref.fine_align.

(** C1, as the spec has it, fails on the lagging peer: [get_samples] returns
    normally with [tx_median = 0.0625], the median of the five received TX
    samples, while the median of the three aligned ones is [0.09375]; in the
    order of the specification the capture would be rejected as too high. *)
Lemma medians_are_not_of_aligned_buffers :
  (get_samples lagging_peer fresh).1 = Ok lagging_result
  /\ np_median (map cabs (txframe_aligned lagging_result)) = F32.of_bits b0_09375
  /\ tx_median lagging_result <> np_median (map cabs (txframe_aligned lagging_result))
  /\ (capture_spec_order lagging_peer fresh).1
     = Raise (MedianTooHigh (F32.of_bits b0_09375)).
Proof.
  repeat split; try (vm_compute; reflexivity).
  vm_compute. discriminate.
Qed.

Lemma get_samples_stage_order_witness :
  get_samples lagging_peer fresh
  = (Ok lagging_result, (get_samples lagging_peer fresh).2)
  /\ exists (txframe rxframe rx_scaled : list sample),
       (receive_tcp fresh lagging_peer).1
       = Ok (txframe, tx_ts lagging_result, rxframe, rx_ts lagging_result)
       /\ normalize fresh txframe rxframe
          = Ok (rx_scaled, tx_median lagging_result, rx_median lagging_result)
       /\ tx_median lagging_result = np_median (map cabs txframe)
       /\ rx_median lagging_result = np_median (map cabs rxframe)
       /\ rx_scaled
          = map (fun x => cmul_real (cdiv_real x (rx_median lagging_result))
                                    (tx_median lagging_result)) rxframe
       /\ align_samples txframe rx_scaled
          = Ok (txframe_aligned lagging_result, rxframe_aligned lagging_result)
       /\ _bin_and_accumulate (txframe_aligned lagging_result)
            (rxframe_aligned lagging_result) fresh
          = (Ok tt, (get_samples lagging_peer fresh).2).
Proof.
  assert (H : get_samples lagging_peer fresh
              = (Ok lagging_result, (get_samples lagging_peer fresh).2))
    by (vm_compute; reflexivity).
  split; [exact H | exact (get_samples_stage_order _ _ _ _ H)].
Defined.

Lemma coarse_align_crops_by_offset_witness :
  (length tx3 = length rx3
   /\ tx3 <> []
   /\ length (correlate rx3 tx3) = (length rx3 + length tx3 - 1)%nat)
  /\ exists argmax_index : nat,
       np_argmax (map cabs (correlate rx3 tx3)) = Ok argmax_index
       /\ (argmax_index < length rx3 + length tx3 - 1)%nat
       /\ let offset := (Z.of_nat argmax_index - (Z.of_nat (length tx3) - 1))%Z in
          coarse_align tx3 rx3 = Ok (crop_by_offset offset tx3 rx3)
          /\ length (crop_by_offset offset tx3 rx3).1
             = length (crop_by_offset offset tx3 rx3).2.
Proof.
  assert (H1 : length tx3 = length rx3) by reflexivity.
  assert (H2 : tx3 <> []) by discriminate.
  assert (H3 : length (correlate rx3 tx3) = (length rx3 + length tx3 - 1)%nat)
    by reflexivity.
  split; [easy | exact (coarse_align_crops_by_offset tx3 rx3 H1 H2 H3)].
Defined.

(** On [tx3] and [rx3] the offset is 1: one sample is cropped from each
    side and, the offset being odd, one more from the end. *)
Lemma coarse_align_tx3_rx3 : coarse_align tx3 rx3 = Ok ([x0_125], [x0_125]).
Proof. vm_compute. reflexivity. Qed.

(** C9, as the spec has it, fails on one sample whose magnitude is edge 5
    rounded to binary32: the rounding is upwards, so the magnitude is above
    edge 5, the upper edge of bin 4, and yet the pair is stored in bin 4. *)
Lemma stored_magnitude_above_its_edge :
  let x : sample := (F32.of_f64 (edge 5), S754_zero false) in
  bin_edges fresh !! 4%nat = Some (edge 4)
  /\ bin_edges fresh !! 5%nat = Some (edge 5)
  /\ accumulated_bins (_bin_and_accumulate [x] [x] fresh).2 !! 4%nat = Some [(x, x)]
  /\ SFltb (edge 5) (F64.of_f32 (cabs x)) = true
  /\ SFleb (F64.of_f32 (cabs x)) (edge 5) = false.
Proof. repeat split; vm_compute; reflexivity. Qed.

(** After the capture from the lagging peer the three aligned pairs sit in
    the bins of their magnitudes: 0.0625 in bin 3, 0.09375 in bin 5, 0.125 in
    bin 7. *)
Lemma lagging_capture_bins :
  accumulated_bins (get_samples lagging_peer fresh).2
  = <[3%nat := [(x0_0625, x0_0625)]]>
      (<[5%nat := [(x0_09375, x0_09375)]]>
         (<[7%nat := [(x0_125, x0_125)]]> (replicate 64 []))).
Proof. vm_compute. reflexivity. Qed.

End Examples.

(** * More of the module *)

Local Close Scope Z_scope.

(** ** The byte stream *)
Section Stream.
Implicit Types s : socket.
Implicit Types evs : list event.

Lemma recv_from_empty evs (n : nat) :
  pending evs = [] ->
  (recv_from evs n).1 = if stalls evs then Raise SocketTimeout else Ok [].
Proof.
  induction evs as [|[bs|] evs IH]; simpl; try reflexivity.
  intros H. apply app_eq_nil in H as [-> H]. now apply IH.
Qed.

Lemma recv_from_empty_inbox evs (n : nat) :
  pending evs = [] -> stalls evs = false -> (recv_from evs n).2 = [].
Proof.
  induction evs as [|[bs|] evs IH]; simpl; try easy.
  intros H Hs. apply app_eq_nil in H as [-> H]. now apply IH.
Qed.

Lemma recv_from_data evs (n : nat) :
  (0 < n)%nat -> pending evs <> [] ->
  exists b evs',
    recv_from evs n = (Ok b, evs')
    /\ b <> [] /\ (length b <= n)%nat
    /\ b ++ pending evs' = pending evs
    /\ stalls evs' = stalls evs.
Proof.
  intros Hn. induction evs as [|[bs|] evs IH]; simpl; try easy.
  intros Hne. destruct bs as [|x bs].
  - apply IH. exact Hne.
  - destruct (Nat.leb_spec (length (x :: bs)) n) as [Hle|Hgt].
    + exists (x :: bs), evs. repeat split; try easy.
    + exists (take n (x :: bs)), (Data (drop n (x :: bs)) :: evs).
      repeat split.
      * destruct n; [lia | easy].
      * rewrite length_take. lia.
      * simpl pending. now rewrite app_assoc, take_drop.
Qed.

(** The loop of [_recv_exact] on a peer that has at least [num_bytes]
    bytes to deliver. *)
Lemma recv_loop_enough (fuel num_bytes : nat) (bufs : list (list byte)) s :
  (num_bytes <= fuel)%nat ->
  (num_bytes <= length (pending (inbox s)))%nat ->
  exists bufs' s',
    recv_loop fuel num_bytes bufs s = (Ok bufs', s')
    /\ concat bufs' = concat bufs ++ take num_bytes (pending (inbox s))
    /\ pending (inbox s') = drop num_bytes (pending (inbox s))
    /\ stalls (inbox s') = stalls (inbox s)
    /\ outbox s' = outbox s /\ is_open s' = is_open s.
Proof.
  revert num_bytes bufs s.
  induction fuel as [|fuel IH]; intros num_bytes bufs s Hfuel Havail.
  - assert (num_bytes = 0%nat) as -> by lia. exists bufs, s. simpl.
    now rewrite app_nil_r.
  - simpl. destruct (Nat.ltb_spec 0 num_bytes) as [Hpos|Hz].
    + destruct (recv_from_data (inbox s) num_bytes Hpos) as (b & evs' & Hr & Hb & Hlen & Hp & Hst).
      { intros Hnil. rewrite Hnil in Havail. simpl in Havail. lia. }
      unfold mbind, st_bind, recv. rewrite Hr.
      destruct (Nat.eqb_spec (length b) 0) as [Hb0|Hb0].
      { destruct b; [easy | discriminate]. }
      set (s1 := {| inbox := evs'; outbox := outbox s; is_open := is_open s |}).
      destruct (IH (num_bytes - length b)%nat (bufs ++ [b]) s1) as
        (bufs' & s' & Hloop & Hc & Hp' & Hst' & Ho & Hi).
      { lia. }
      { simpl. rewrite <- Hp in Havail. rewrite length_app in Havail. lia. }
      exists bufs', s'. split; [exact Hloop|]. simpl in *.
      rewrite Hc, Hp', Hst', Ho, Hi, <- Hp, concat_app. simpl. rewrite app_nil_r.
      repeat split; try easy.
      * rewrite <- app_assoc. f_equal.
        rewrite take_app_ge by lia. reflexivity.
      * rewrite drop_app_ge by lia. reflexivity.
    + assert (num_bytes = 0%nat) as -> by lia. exists bufs, s. simpl.
      now rewrite app_nil_r.
Qed.

(** The loop of [_recv_exact] on a peer that delivers fewer than
    [num_bytes] bytes and then closes. *)
Lemma recv_loop_closed (fuel num_bytes : nat) (bufs : list (list byte)) s :
  (num_bytes <= fuel)%nat ->
  (length (pending (inbox s)) < num_bytes)%nat ->
  stalls (inbox s) = false ->
  exists bufs' s',
    recv_loop fuel num_bytes bufs s = (Ok bufs', s')
    /\ concat bufs' = concat bufs ++ pending (inbox s)
    /\ inbox s' = []
    /\ outbox s' = outbox s /\ is_open s' = is_open s.
Proof.
  revert num_bytes bufs s.
  induction fuel as [|fuel IH]; intros num_bytes bufs s Hfuel Havail Hst; [lia|].
  simpl. destruct (Nat.ltb_spec 0 num_bytes) as [Hpos|Hz]; [|lia].
  unfold mbind, st_bind, recv.
  destruct (pending (inbox s)) as [|x avail] eqn:Hp.
  - pose proof (recv_from_empty (inbox s) num_bytes Hp) as Hr.
    pose proof (recv_from_empty_inbox (inbox s) num_bytes Hp Hst) as Hi.
    rewrite Hst in Hr. destruct (recv_from (inbox s) num_bytes) as [r evs'].
    simpl in Hr, Hi. subst r evs'. simpl.
    eexists bufs, _. repeat split. now rewrite app_nil_r.
  - destruct (recv_from_data (inbox s) num_bytes Hpos) as (b & evs' & Hr & Hb & Hlen & Hpe & Hst').
    { now rewrite Hp. }
    rewrite Hr.
    destruct (Nat.eqb_spec (length b) 0) as [Hb0|Hb0].
    { destruct b; [easy | discriminate]. }
    set (s1 := {| inbox := evs'; outbox := outbox s; is_open := is_open s |}).
    destruct (IH (num_bytes - length b)%nat (bufs ++ [b]) s1) as
      (bufs' & s' & Hloop & Hc & Hin & Ho & Hi).
    { lia. }
    { simpl. rewrite Hp in Hpe. rewrite <- Hpe, length_app in Havail. lia. }
    { simpl. congruence. }
    exists bufs', s'. split; [exact Hloop|]. simpl in *.
    rewrite Hc, concat_app. simpl. rewrite app_nil_r, <- app_assoc, Hpe, Hp.
    repeat split; easy.
Qed.

(** The loop of [_recv_exact] on a peer that delivers fewer than
    [num_bytes] bytes and then stalls. *)
Lemma recv_loop_stalled (fuel num_bytes : nat) (bufs : list (list byte)) s :
  (num_bytes <= fuel)%nat ->
  (length (pending (inbox s)) < num_bytes)%nat ->
  stalls (inbox s) = true ->
  exists s',
    recv_loop fuel num_bytes bufs s = (Raise SocketTimeout, s')
    /\ outbox s' = outbox s /\ is_open s' = is_open s.
Proof.
  revert num_bytes bufs s.
  induction fuel as [|fuel IH]; intros num_bytes bufs s Hfuel Havail Hst; [lia|].
  simpl. destruct (Nat.ltb_spec 0 num_bytes) as [Hpos|Hz]; [|lia].
  unfold mbind, st_bind, recv.
  destruct (pending (inbox s)) as [|x avail] eqn:Hp.
  - pose proof (recv_from_empty (inbox s) num_bytes Hp) as Hr.
    rewrite Hst in Hr. destruct (recv_from (inbox s) num_bytes) as [r evs'].
    simpl in Hr. subst r. simpl. eexists. repeat split.
  - destruct (recv_from_data (inbox s) num_bytes Hpos) as (b & evs' & Hr & Hb & Hlen & Hpe & Hst').
    { now rewrite Hp. }
    rewrite Hr.
    destruct (Nat.eqb_spec (length b) 0) as [Hb0|Hb0].
    { destruct b; [easy | discriminate]. }
    set (s1 := {| inbox := evs'; outbox := outbox s; is_open := is_open s |}).
    destruct (IH (num_bytes - length b)%nat (bufs ++ [b]) s1) as (s' & Hloop & Ho & Hi).
    { lia. }
    { simpl. rewrite Hp in Hpe. rewrite <- Hpe, length_app in Havail. lia. }
    { simpl. congruence. }
    exists s'. split; [exact Hloop|]. simpl in *. easy.
Qed.
End Stream.

Section RecvExact.
Implicit Types s : socket.

Lemma recv_exact_no_stall (num_bytes : nat) s :
  stalls (inbox s) = false ->
  exists s',
    _recv_exact num_bytes s = (Ok (take num_bytes (pending (inbox s))), s')
    /\ pending (inbox s') = drop num_bytes (pending (inbox s))
    /\ stalls (inbox s') = false
    /\ outbox s' = outbox s /\ is_open s' = is_open s.
Proof.
  intros Hst. unfold _recv_exact, mbind, st_bind.
  destruct (Nat.le_gt_cases num_bytes (length (pending (inbox s)))) as [Hle|Hgt].
  - destruct (recv_loop_enough num_bytes num_bytes [] s (Nat.le_refl _) Hle)
      as (bufs' & s' & Hloop & Hc & Hp & Hs & Ho & Hi).
    rewrite Hloop. exists s'. simpl in Hc. rewrite Hc. repeat split; congruence.
  - destruct (recv_loop_closed num_bytes num_bytes [] s (Nat.le_refl _) Hgt Hst)
      as (bufs' & s' & Hloop & Hc & Hin & Ho & Hi).
    rewrite Hloop. exists s'. simpl in Hc. rewrite Hc, Hin.
    rewrite take_ge, drop_ge by lia. repeat split; easy.
Qed.

(** X1: [_recv_exact] sees the byte stream of the peer and not its
    segments.  With [avail] the bytes the peer delivers before it stalls or
    closes: when at least [num_bytes] are to come it returns the first
    [num_bytes] of them and leaves the rest to be read; when fewer are to
    come it raises the timeout if the peer stalls, and returns all of them,
    fewer than asked for, if the peer closes.  It sends nothing and does not
    close the socket. *)
Theorem recv_exact_stream (num_bytes : nat) s :
  let avail := pending (inbox s) in
  let out := _recv_exact num_bytes s in
  out.1 = (if (num_bytes <=? length avail)%nat then Ok (take num_bytes avail)
           else if stalls (inbox s) then Raise SocketTimeout
           else Ok avail)
  /\ ((num_bytes <= length avail)%nat ->
      pending (inbox out.2) = drop num_bytes avail
      /\ stalls (inbox out.2) = stalls (inbox s))
  /\ outbox out.2 = outbox s /\ is_open out.2 = is_open s.
Proof.
  intros avail out. unfold out, _recv_exact, mbind, st_bind. fold avail.
  destruct (Nat.leb_spec num_bytes (length avail)) as [Hle|Hgt].
  - destruct (recv_loop_enough num_bytes num_bytes [] s (Nat.le_refl _) Hle)
      as (bufs' & s' & Hloop & Hc & Hp & Hs & Ho & Hi).
    rewrite Hloop. simpl in *. rewrite Hc. easy.
  - destruct (stalls (inbox s)) eqn:Hst.
    + destruct (recv_loop_stalled num_bytes num_bytes [] s (Nat.le_refl _) Hgt Hst)
        as (s' & Hloop & Ho & Hi).
      rewrite Hloop. simpl. repeat split; try easy; intros; unfold avail in *; lia.
    + destruct (recv_loop_closed num_bytes num_bytes [] s (Nat.le_refl _) Hgt Hst)
        as (bufs' & s' & Hloop & Hc & Hin & Ho & Hi).
      rewrite Hloop. simpl in *. rewrite Hc.
      repeat split; try easy; intros; unfold avail in *; lia.
Qed.
End RecvExact.

Section ParseFacts.
Context {P : Platform} {FA : FineAlign}.

Lemma recv_frame_no_stall (self : Capture) (num_samps : Z) (s : socket) :
  stalls (inbox s) = false ->
  exists s',
    recv_frame self num_samps s
    = ((parse_frame self num_samps (pending (inbox s))).1, s')
    /\ (is_ok (parse_frame self num_samps (pending (inbox s))).1 = true ->
        pending (inbox s') = (parse_frame self num_samps (pending (inbox s))).2
        /\ stalls (inbox s') = false).
Proof.
  intros Hst. unfold recv_frame, parse_frame.
  destruct (num_samps >? 0)%Z.
  - destruct (recv_exact_no_stall (Z.to_nat (num_samps * sizeof_sample self)) s Hst)
      as (s' & Hr & Hp & Hs & _).
    unfold mbind, st_bind. rewrite Hr. unfold lift. simpl.
    exists s'. split; [now destruct (np_fromstring _)|]. easy.
  - exists s. easy.
Qed.

Lemma receive_tcp_parse (self : Capture) (p : peer) :
  accepts p = true ->
  stalls (script p) = false ->
  is_ok (pack_I (num_samples_to_request self)) = true ->
  (receive_tcp self p).1 = parse_reply self (pending (script p)).
Proof.
  intros Hacc Hst Hreq. unfold receive_tcp, receive_tcp_on, parse_reply.
  destruct (pack_I (num_samples_to_request self)) as [req|] eqn:Hp; [|discriminate].
  erewrite bind_ok by (unfold connect; rewrite Hacc; reflexivity).
  erewrite bind_ok by reflexivity.
  erewrite bind_ok by reflexivity.
  erewrite bind_ok by reflexivity.
  match goal with |- context [mbind _ (_recv_exact 12) ?s] => set (s0 := s) end.
  assert (Hs0 : stalls (inbox s0) = false) by exact Hst.
  assert (Hp0 : pending (inbox s0) = pending (script p)) by reflexivity.
  clearbody s0. rewrite <- Hp0. clear Hp0 Hp req Hreq Hacc Hst.
  destruct (recv_exact_no_stall 12 s0 Hs0) as (s1 & Hr1 & Hp1 & Hs1 & _).
  erewrite bind_ok by exact Hr1.
  destruct (unpack_III (take 12 (pending (inbox s0)))) as [[[num_samps tx_second] tx_pps]|e];
    [|reflexivity].
  erewrite bind_ok by reflexivity.
  cbn [mbind result_bind]. rewrite <- Hp1.
  destruct (recv_frame_no_stall self num_samps s1 Hs1) as (s2 & Hr2 & Hok2).
  destruct (parse_frame self num_samps (pending (inbox s1))).1 as [txframe|e] eqn:Htx;
    [|now erewrite bind_raise by exact Hr2].
  erewrite bind_ok by exact Hr2.
  destruct (Hok2 eq_refl) as [Hp2 Hs2]. rewrite <- Hp2.
  destruct (recv_exact_no_stall 8 s2 Hs2) as (s3 & Hr3 & Hp3 & Hs3 & _).
  erewrite bind_ok by exact Hr3.
  destruct (unpack_II (take 8 (pending (inbox s2)))) as [[rx_second rx_pps]|e];
    [|reflexivity].
  erewrite bind_ok by reflexivity.
  cbn [mbind result_bind]. rewrite <- Hp3.
  destruct (recv_frame_no_stall self num_samps s3 Hs3) as (s4 & Hr4 & _).
  destruct (parse_frame self num_samps (pending (inbox s3))).1 as [rxframe|e];
    [|now erewrite bind_raise by exact Hr4].
  erewrite bind_ok by exact Hr4.
  unfold mbind, st_bind, result_bind, debug_stats, debug_check, raise, mret, st_ret, result_ret.
  destruct log_debug; [|reflexivity].
  destruct txframe; [reflexivity|]. destruct rxframe; reflexivity.
Qed.
End ParseFacts.

Section Replies.
Context {P : Platform} {FA : FineAlign}.
Implicit Types self : Capture.
Implicit Types p q : peer.

Lemma unpack_III_length (buf : list byte) (x : Z * Z * Z) :
  unpack_III buf = Ok x -> length buf = 12%nat.
Proof.
  intros H. do 13 (destruct buf as [|? buf]; [try discriminate H|]);
    [reflexivity | discriminate H].
Qed.

Lemma unpack_II_length (buf : list byte) (x : Z * Z) :
  unpack_II buf = Ok x -> length buf = 8%nat.
Proof.
  intros H. do 9 (destruct buf as [|? buf]; [try discriminate H|]);
    [reflexivity | discriminate H].
Qed.

Lemma unpack_III_short (buf : list byte) :
  (length buf < 12)%nat -> unpack_III buf = Raise StructError.
Proof.
  intros H. destruct (unpack_III buf) as [x|e] eqn:Hu.
  - apply unpack_III_length in Hu. lia.
  - unfold unpack_III in Hu. repeat case_match; congruence.
Qed.

Lemma unpack_II_nil : unpack_II [] = Raise StructError.
Proof. reflexivity. Qed.

Lemma decode_complex64_length (k : nat) (bs : list byte) :
  length bs = (8 * k)%nat -> length (decode_complex64 bs) = k.
Proof.
  revert bs. induction k as [|k IH]; intros bs Hlen.
  - now destruct bs.
  - do 8 (destruct bs as [|? bs]; [simpl in Hlen; lia|]).
    cbn [decode_complex64 length]. f_equal. apply IH. simpl in Hlen. lia.
Qed.

Lemma np_fromstring_whole (k : nat) (bs : list byte) :
  length bs = (8 * k)%nat -> np_fromstring bs = Ok (decode_complex64 bs).
Proof.
  intros Hlen. unfold np_fromstring. rewrite Hlen.
  replace (8 * k)%nat with (k * 8)%nat by lia.
  now rewrite Nat.Div0.mod_mul.
Qed.

Lemma np_fromstring_ragged (bs : list byte) :
  (length bs mod 8 <> 0)%nat -> np_fromstring bs = Raise FromstringSize.
Proof.
  intros Hlen. unfold np_fromstring.
  now destruct (Nat.eqb_spec (length bs mod 8) 0).
Qed.

Lemma receive_tcp_refused self p :
  accepts p = false -> receive_tcp self p = (Raise ConnectionRefused, new_socket).
Proof.
  intros H. unfold receive_tcp, receive_tcp_on.
  erewrite bind_raise; [reflexivity|]. unfold connect. now rewrite H.
Qed.

Lemma receive_tcp_unpackable self p :
  accepts p = true ->
  is_ok (pack_I (num_samples_to_request self)) = false ->
  receive_tcp self p
  = (Raise StructError,
     {| inbox := script p; outbox := [x01]; is_open := true |}).
Proof.
  intros Hacc Hreq. unfold receive_tcp, receive_tcp_on.
  erewrite bind_ok by (unfold connect; rewrite Hacc; reflexivity).
  erewrite bind_ok by reflexivity.
  unfold pack_I in *.
  destruct ((0 <=? num_samples_to_request self) && (num_samples_to_request self <? 2 ^ 32))%Z;
    [discriminate|].
  reflexivity.
Qed.

(** X3: what [receive_tcp] returns or raises depends on the bytes the peer
    delivers and not on how they are cut into segments: two peers that accept
    the connection, do not stall, and deliver the same bytes before closing
    give the same result. *)
Theorem receive_tcp_ignores_segmentation self p q :
  accepts p = true -> accepts q = true ->
  stalls (script p) = false -> stalls (script q) = false ->
  pending (script p) = pending (script q) ->
  (receive_tcp self p).1 = (receive_tcp self q).1.
Proof.
  intros Hp Hq Hsp Hsq Heq.
  destruct (is_ok (pack_I (num_samples_to_request self))) eqn:Hreq.
  - rewrite !receive_tcp_parse by assumption. now rewrite Heq.
  - now rewrite !receive_tcp_unpackable.
Qed.
Lemma parse_frame_payload self (n : Z) (payload rest : list byte) :
  (0 < n)%Z ->
  length payload = Z.to_nat (n * sizeof_sample self) ->
  parse_frame self n (payload ++ rest) = (np_fromstring payload, rest).
Proof.
  intros Hn Hlen. unfold parse_frame.
  destruct (Z.gtb_spec n 0); [|lia].
  rewrite <- Hlen. now rewrite take_app_length, drop_app_length.
Qed.

Lemma parse_frame_short self (n : Z) (payload : list byte) :
  (0 < n)%Z ->
  (length payload <= Z.to_nat (n * sizeof_sample self))%nat ->
  parse_frame self n payload = (np_fromstring payload, []).
Proof.
  intros Hn Hlen. unfold parse_frame.
  destruct (Z.gtb_spec n 0); [|lia].
  now rewrite take_ge, drop_ge by lia.
Qed.

Lemma parse_frame_none self (n : Z) (stream : list byte) :
  (n <= 0)%Z -> parse_frame self n stream = (Ok [], stream).
Proof.
  intros Hn. unfold parse_frame. destruct (Z.gtb_spec n 0); [lia|reflexivity].
Qed.

Lemma debug_check_cons (x : sample) (l : list sample) : debug_check (x :: l) = Ok tt.
Proof. unfold debug_check. now destruct log_debug. Qed.

Lemma debug_check_length (l : list sample) :
  (0 < length l)%nat -> debug_check l = Ok tt.
Proof. destruct l; simpl; [lia|]. intros _. apply debug_check_cons. Qed.

(** X4: a complete reply is decoded.  When the peer delivers a TX header
    announcing [n > 0] samples, [8 n] bytes, an RX header and [8 n] bytes
    more, in whatever segments, [receive_tcp] returns the two payloads
    decoded as [n] samples each and the two timestamps; bytes that follow
    the reply do not change the result. *)
Theorem receive_tcp_complete_reply self p (n tx_second tx_pps rx_second rx_pps : Z)
    (header tx_bytes rx_header rx_bytes rest : list byte) :
  accepts p = true ->
  stalls (script p) = false ->
  is_ok (pack_I (num_samples_to_request self)) = true ->
  sizeof_sample self = 8%Z ->
  pending (script p) = header ++ tx_bytes ++ rx_header ++ rx_bytes ++ rest ->
  unpack_III header = Ok (n, tx_second, tx_pps) ->
  unpack_II rx_header = Ok (rx_second, rx_pps) ->
  (0 < n)%Z ->
  length tx_bytes = Z.to_nat (8 * n) ->
  length rx_bytes = Z.to_nat (8 * n) ->
  (receive_tcp self p).1
  = Ok (decode_complex64 tx_bytes, timestamp tx_second tx_pps,
        decode_complex64 rx_bytes, timestamp rx_second rx_pps)
  /\ length (decode_complex64 tx_bytes) = Z.to_nat n
  /\ length (decode_complex64 rx_bytes) = Z.to_nat n.
Proof.
  intros Hacc Hst Hreq Hsz Hstream Hh Hrh Hn Htx Hrx.
  assert (Htx8 : length tx_bytes = (8 * Z.to_nat n)%nat) by lia.
  assert (Hrx8 : length rx_bytes = (8 * Z.to_nat n)%nat) by lia.
  pose proof (decode_complex64_length _ _ Htx8) as Hdtx.
  pose proof (decode_complex64_length _ _ Hrx8) as Hdrx.
  split; [|now split].
  rewrite receive_tcp_parse by assumption. rewrite Hstream. unfold parse_reply.
  pose proof (unpack_III_length _ _ Hh) as Hhl.
  pose proof (unpack_II_length _ _ Hrh) as Hrhl.
  cbv zeta. rewrite <- Hhl, !take_app_length, !drop_app_length, Hh.
  cbn [mbind result_bind].
  rewrite parse_frame_payload by (rewrite ?Hsz; lia).
  rewrite (np_fromstring_whole _ _ Htx8). cbn [fst snd mbind result_bind].
  rewrite <- Hrhl, !take_app_length, ?drop_app_length, Hrh.
  cbn [mbind result_bind].
  rewrite parse_frame_payload by (rewrite ?Hsz; lia).
  rewrite (np_fromstring_whole _ _ Hrx8). cbn [fst snd mbind result_bind].
  rewrite !debug_check_length by lia. reflexivity.
Qed.

(** What [receive_tcp] makes of a reply that announces no samples. *)
Lemma receive_tcp_no_samples self p (tx_second tx_pps rx_second rx_pps : Z)
    (header rx_header rest : list byte) :
  accepts p = true ->
  stalls (script p) = false ->
  is_ok (pack_I (num_samples_to_request self)) = true ->
  pending (script p) = header ++ rx_header ++ rest ->
  unpack_III header = Ok (0%Z, tx_second, tx_pps) ->
  unpack_II rx_header = Ok (rx_second, rx_pps) ->
  (receive_tcp self p).1
  = if log_debug then Raise EmptyReduction
    else Ok ([], timestamp tx_second tx_pps, [], timestamp rx_second rx_pps).
Proof.
  intros Hacc Hst Hreq Hstream Hh Hrh.
  rewrite receive_tcp_parse by assumption. rewrite Hstream. unfold parse_reply.
  pose proof (unpack_III_length _ _ Hh) as Hhl.
  pose proof (unpack_II_length _ _ Hrh) as Hrhl.
  cbv zeta. rewrite <- Hhl, !take_app_length, !drop_app_length, Hh.
  cbn [mbind result_bind].
  rewrite !parse_frame_none by lia. cbn [fst snd mbind result_bind].
  rewrite <- Hrhl, !take_app_length, Hrh.
  cbn [mbind result_bind].
  unfold debug_check. now destruct log_debug.
Qed.

(** X5: a reply that announces no samples makes [receive_tcp] return two
    empty buffers without reading a payload; at DEBUG level it raises
    instead, from [np.min] of the empty buffer in the logging call. *)
Theorem receive_tcp_zero_sample_reply self p (tx_second tx_pps rx_second rx_pps : Z)
    (header rx_header rest : list byte) :
  accepts p = true ->
  stalls (script p) = false ->
  is_ok (pack_I (num_samples_to_request self)) = true ->
  pending (script p) = header ++ rx_header ++ rest ->
  unpack_III header = Ok (0%Z, tx_second, tx_pps) ->
  unpack_II rx_header = Ok (rx_second, rx_pps) ->
  (receive_tcp self p).1
  = if log_debug then Raise EmptyReduction
    else Ok ([], timestamp tx_second tx_pps, [], timestamp rx_second rx_pps).
Proof. apply receive_tcp_no_samples. Qed.


(** X6: a connection closed inside the TX payload always makes
    [receive_tcp] raise: from [np.fromstring] when the bytes received are
    not a multiple of 8, and else from [struct.unpack] of the RX header,
    which is empty. *)
Theorem receive_tcp_truncated_tx self p (n tx_second tx_pps : Z)
    (header tx_bytes : list byte) :
  accepts p = true ->
  stalls (script p) = false ->
  is_ok (pack_I (num_samples_to_request self)) = true ->
  sizeof_sample self = 8%Z ->
  pending (script p) = header ++ tx_bytes ->
  unpack_III header = Ok (n, tx_second, tx_pps) ->
  (length tx_bytes < Z.to_nat (8 * n))%nat ->
  (receive_tcp self p).1
  = Raise (if (length tx_bytes mod 8 =? 0)%nat then StructError else FromstringSize).
Proof.
  intros Hacc Hst Hreq Hsz Hstream Hh Hshort.
  rewrite receive_tcp_parse by assumption. rewrite Hstream. unfold parse_reply.
  pose proof (unpack_III_length _ _ Hh) as Hhl.
  cbv zeta. rewrite <- Hhl, !take_app_length, !drop_app_length, Hh.
  cbn [mbind result_bind].
  rewrite !(parse_frame_short self n tx_bytes) by (rewrite ?Hsz; lia).
  cbn [fst snd]. unfold np_fromstring.
  destruct (length tx_bytes mod 8 =? 0)%nat; reflexivity.
Qed.

(** X7: a connection closed inside the RX payload, after a whole number
    [k > 0] of samples, is not noticed: [receive_tcp] returns [n] TX samples
    and [k < n] RX samples. *)
Theorem receive_tcp_truncated_rx self p (n tx_second tx_pps rx_second rx_pps : Z)
    (k : nat) (header tx_bytes rx_header rx_bytes : list byte) :
  accepts p = true ->
  stalls (script p) = false ->
  is_ok (pack_I (num_samples_to_request self)) = true ->
  sizeof_sample self = 8%Z ->
  pending (script p) = header ++ tx_bytes ++ rx_header ++ rx_bytes ->
  unpack_III header = Ok (n, tx_second, tx_pps) ->
  unpack_II rx_header = Ok (rx_second, rx_pps) ->
  length tx_bytes = Z.to_nat (8 * n) ->
  length rx_bytes = (8 * k)%nat ->
  (0 < k < Z.to_nat n)%nat ->
  (receive_tcp self p).1
  = Ok (decode_complex64 tx_bytes, timestamp tx_second tx_pps,
        decode_complex64 rx_bytes, timestamp rx_second rx_pps)
  /\ length (decode_complex64 tx_bytes) = Z.to_nat n
  /\ length (decode_complex64 rx_bytes) = k.
Proof.
  intros Hacc Hst Hreq Hsz Hstream Hh Hrh Htx Hrx Hk.
  assert (Htx8 : length tx_bytes = (8 * Z.to_nat n)%nat) by lia.
  pose proof (decode_complex64_length _ _ Htx8) as Hdtx.
  pose proof (decode_complex64_length _ _ Hrx) as Hdrx.
  split; [|now split].
  rewrite receive_tcp_parse by assumption. rewrite Hstream. unfold parse_reply.
  pose proof (unpack_III_length _ _ Hh) as Hhl.
  pose proof (unpack_II_length _ _ Hrh) as Hrhl.
  cbv zeta. rewrite <- Hhl, !take_app_length, !drop_app_length, Hh.
  cbn [mbind result_bind].
  rewrite parse_frame_payload by (rewrite ?Hsz; lia).
  rewrite (np_fromstring_whole _ _ Htx8). cbn [fst snd mbind result_bind].
  rewrite <- Hrhl, !take_app_length, ?drop_app_length, Hrh.
  cbn [mbind result_bind].
  rewrite !(parse_frame_short self n rx_bytes) by (rewrite ?Hsz; lia).
  rewrite (np_fromstring_whole _ _ Hrx). cbn [fst snd mbind result_bind].
  rewrite !debug_check_length by lia. reflexivity.
Qed.
End Replies.

Section Outbox.

Lemma sends_nothing_bind {A B} (m : IO A) (k : A -> IO B) :
  sends_nothing m -> (forall a, sends_nothing (k a)) -> sends_nothing (m ≫= k).
Proof.
  intros Hm Hk s. unfold mbind, st_bind. specialize (Hm s).
  destruct (m s) as [[a|e] s']; simpl in *; [|exact Hm].
  now rewrite Hk.
Qed.

Lemma sends_nothing_lift {A} (r : result A) : sends_nothing (lift r).
Proof. now intros s. Qed.

Lemma sends_nothing_ret {A} (a : A) : sends_nothing (mret a).
Proof. now intros s. Qed.

Lemma sends_nothing_raise {A} (e : exn) : sends_nothing (@raise socket A e).
Proof. now intros s. Qed.

Lemma sends_nothing_close : sends_nothing close.
Proof. now intros s. Qed.

Lemma sends_nothing_recv (n : nat) : sends_nothing (recv n).
Proof. intros s. unfold recv. now destruct (recv_from (inbox s) n). Qed.

Lemma sends_nothing_recv_loop (fuel num_bytes : nat) (bufs : list (list byte)) :
  sends_nothing (recv_loop fuel num_bytes bufs).
Proof.
  revert num_bytes bufs. induction fuel as [|fuel IH]; intros num_bytes bufs; simpl.
  - apply sends_nothing_ret.
  - destruct (0 <? num_bytes)%nat; [|apply sends_nothing_ret].
    apply sends_nothing_bind; [apply sends_nothing_recv|].
    intros b. destruct (length b =? 0)%nat; [apply sends_nothing_ret | apply IH].
Qed.

Lemma sends_nothing_recv_exact (num_bytes : nat) : sends_nothing (_recv_exact num_bytes).
Proof.
  apply sends_nothing_bind; [apply sends_nothing_recv_loop|].
  intros; apply sends_nothing_ret.
Qed.
End Outbox.

Create HintDb outbox.
#[local] Hint Resolve sends_nothing_lift sends_nothing_ret sends_nothing_raise
  sends_nothing_close sends_nothing_recv_exact : outbox.

Section Request.
Context {P : Platform} {FA : FineAlign}.

Lemma sends_nothing_recv_frame (self : Capture) (num_samps : Z) :
  sends_nothing (recv_frame self num_samps).
Proof.
  unfold recv_frame. destruct (num_samps >? 0)%Z; auto with outbox.
  apply sends_nothing_bind; auto with outbox.
Qed.

Lemma sends_nothing_debug_stats (frame : list sample) : sends_nothing (debug_stats frame).
Proof.
  unfold debug_stats. destruct log_debug; auto with outbox.
  destruct frame; auto with outbox.
Qed.

Lemma byte_val_of_Z (z : Z) : byte_val (byte_of_Z z) = (z mod 256)%Z.
Proof.
  unfold byte_val, byte_of_Z.
  assert (Hr : (0 <= z mod 256 < 256)%Z) by (apply Z.mod_pos_bound; lia).
  destruct (Byte.of_N (Z.to_N (z mod 256))) as [b|] eqn:Hb.
  - apply Byte.to_of_N in Hb. rewrite Hb. lia.
  - apply Byte.of_N_None_iff in Hb. lia.
Qed.

Lemma u32_of_bytes (n : Z) :
  (0 <= n < 2 ^ 32)%Z ->
  Z.lor (n mod 256)
    (Z.lor (Z.shiftl (Z.shiftr n 8 mod 256) 8)
       (Z.lor (Z.shiftl (Z.shiftr n 16 mod 256) 16)
              (Z.shiftl (Z.shiftr n 24 mod 256) 24))) = n.
Proof.
  intros Hn. apply Z.bits_inj'. intros i Hi.
  change 256%Z with (2 ^ 8)%Z.
  rewrite !Z.lor_spec, !Z.shiftl_spec by lia.
  assert (Hhigh : (32 <= i)%Z -> Z.testbit n i = false).
  { intros H32. rewrite <- (Z.mod_small n (2 ^ 32)) by lia.
    apply Z.mod_pow2_bits_high. lia. }
  destruct (Z.lt_ge_cases i 8) as [H8|H8].
  { rewrite Z.mod_pow2_bits_low by lia.
    rewrite !(Z.testbit_neg_r _ (i - _)) by lia. now rewrite !orb_false_r. }
  rewrite Z.mod_pow2_bits_high by lia. cbn [orb].
  destruct (Z.lt_ge_cases i 16) as [H16|H16].
  { rewrite Z.mod_pow2_bits_low by lia. rewrite Z.shiftr_spec by lia.
    rewrite !(Z.testbit_neg_r _ (i - _)) by lia. rewrite !orb_false_r.
    f_equal. lia. }
  rewrite Z.mod_pow2_bits_high by lia. cbn [orb].
  destruct (Z.lt_ge_cases i 24) as [H24|H24].
  { rewrite Z.mod_pow2_bits_low by lia. rewrite Z.shiftr_spec by lia.
    rewrite !(Z.testbit_neg_r _ (i - _)) by lia. rewrite !orb_false_r.
    f_equal. lia. }
  rewrite Z.mod_pow2_bits_high by lia. cbn [orb].
  destruct (Z.lt_ge_cases i 32) as [H32|H32].
  { rewrite Z.mod_pow2_bits_low by lia. rewrite Z.shiftr_spec by lia.
    f_equal. lia. }
  rewrite Z.mod_pow2_bits_high by lia. now rewrite Hhigh.
Qed.

Lemma pack_I_u32 (n : Z) :
  (0 <= n < 2 ^ 32)%Z ->
  exists b0 b1 b2 b3 : byte,
    pack_I n = Ok [b0; b1; b2; b3] /\ u32 b0 b1 b2 b3 = n.
Proof.
  intros Hn. unfold pack_I, u32.
  destruct (Z.leb_spec 0 n); [|lia]. destruct (Z.ltb_spec n (2 ^ 32)); [|lia].
  cbn [andb].
  destruct big_endian.
  - exists (byte_of_Z (Z.shiftr n 24)), (byte_of_Z (Z.shiftr n 16)),
      (byte_of_Z (Z.shiftr n 8)), (byte_of_Z n).
    split; [reflexivity|]. rewrite !byte_val_of_Z. now apply u32_of_bytes.
  - exists (byte_of_Z n), (byte_of_Z (Z.shiftr n 8)),
      (byte_of_Z (Z.shiftr n 16)), (byte_of_Z (Z.shiftr n 24)).
    split; [reflexivity|]. rewrite !byte_val_of_Z. now apply u32_of_bytes.
Qed.

Lemma receive_tcp_after_request (self : Capture) :
  sends_nothing
    (header ← _recv_exact 12;
     '(num_samps, tx_second, tx_pps) ← lift (unpack_III header);
     let tx_ts := timestamp tx_second tx_pps in
     txframe ← recv_frame self num_samps;
     rx_header ← _recv_exact 8;
     '(rx_second, rx_pps) ← lift (unpack_II rx_header);
     let rx_ts := timestamp rx_second rx_pps in
     rxframe ← recv_frame self num_samps;
     debug_stats txframe;;
     debug_stats rxframe;;
     close;;
     mret (txframe, tx_ts, rxframe, rx_ts)).
Proof.
  repeat first
    [ apply sends_nothing_bind;
      [ auto using sends_nothing_recv_frame, sends_nothing_debug_stats with outbox
      | intros; repeat case_match ]
    | apply sends_nothing_ret ].
Qed.

(** X2: what [receive_tcp] sends.  To a peer that accepts, it sends the
    version byte 1 and then the requested count as four bytes that read back
    as that count in the byte order of the reply headers, and nothing else,
    whatever the peer replies; a count outside 32 bits raises after the
    version byte is sent; to a peer that refuses, nothing is sent. *)
Theorem receive_tcp_request (self : Capture) (p : peer) :
  let n := num_samples_to_request self in
  let sent := outbox (receive_tcp self p).2 in
  if accepts p then
    if ((0 <=? n) && (n <? 2 ^ 32))%Z then
      exists b0 b1 b2 b3 : byte,
        sent = [x01; b0; b1; b2; b3] /\ u32 b0 b1 b2 b3 = n
    else sent = [x01] /\ (receive_tcp self p).1 = Raise StructError
  else sent = [] /\ (receive_tcp self p).1 = Raise ConnectionRefused.
Proof.
  intros n sent. unfold sent, receive_tcp, receive_tcp_on. clear sent.
  destruct (accepts p) eqn:Hacc.
  - erewrite bind_ok by (unfold connect; rewrite Hacc; reflexivity).
    erewrite bind_ok by reflexivity. fold n.
    destruct ((0 <=? n) && (n <? 2 ^ 32))%Z eqn:Hrange.
    + destruct (pack_I_u32 n) as (b0 & b1 & b2 & b3 & Hpack & Hu); [lia|].
      exists b0, b1, b2, b3. split; [|exact Hu].
      erewrite bind_ok by (unfold lift; rewrite Hpack; reflexivity).
      erewrite bind_ok by reflexivity.
      now rewrite (receive_tcp_after_request self).
    + unfold pack_I. fold n. rewrite Hrange. now split.
  - erewrite bind_raise by (unfold connect; rewrite Hacc; reflexivity). now split.
Qed.
End Request.

Section AlignSamples.
Context {P : Platform} {FA : FineAlign}.
Implicit Types tx rx : list sample.

Lemma np_argmax_bound (c : list spec_float) (k : nat) :
  np_argmax c = Ok k -> (k < length c)%nat.
Proof.
  destruct c as [|x c]; [discriminate|]. intros [= <-].
  pose proof (argmax_from_bound c 1 0 x Nat.lt_0_1). simpl. lia.
Qed.

Lemma coarse_align_inv tx rx tx' rx' :
  coarse_align tx rx = Ok (tx', rx') ->
  exists k : nat,
    (k < length (correlate rx tx))%nat
    /\ (tx', rx') = crop_by_offset (Z.of_nat k - (Z.of_nat (length tx) - 1)) tx rx.
Proof.
  intros H.
  destruct (signal_correlate rx tx) as [c|e] eqn:Hc;
    [|unfold coarse_align in H; rewrite Hc in H; discriminate H].
  apply signal_correlate_inv in Hc as (Hrx & Htx & ->).
  destruct (np_argmax (map cabs (correlate rx tx))) as [k|e] eqn:Hk.
  - exists k. split.
    + apply np_argmax_bound in Hk. now rewrite length_map in Hk.
    + rewrite (coarse_align_crop tx rx k Htx Hrx Hk) in H. now injection H as <-.
  - unfold coarse_align in H. rewrite (signal_correlate_ok rx tx Hrx Htx) in H.
    cbn [mbind result_bind] in H. rewrite Hk in H. discriminate H.
Qed.

Lemma drop_last_infix {A} (k : nat) (a : list A) :
  exists post, a = drop_last k a ++ post.
Proof. exists (drop (length a - k) a). unfold drop_last. now rewrite take_drop. Qed.

Lemma drop_infix {A} (k : nat) (a : list A) :
  exists pre, a = pre ++ drop k a.
Proof. exists (take k a). now rewrite take_drop. Qed.

Lemma drop_last_length {A} (k : nat) (a : list A) :
  length (drop_last k a) = (length a - k)%nat.
Proof. unfold drop_last. rewrite length_take. lia. Qed.

Lemma crop_by_offset_infix (offset : Z) tx rx :
  exists pre post, tx = pre ++ (crop_by_offset offset tx rx).1 ++ post.
Proof.
  unfold crop_by_offset.
  destruct (0 <? offset)%Z; [|destruct (offset <? 0)%Z];
    destruct (Z.odd (Z.abs offset)); cbn [fst].
  - destruct (drop_last_infix (Z.abs_nat offset) tx) as [post1 H1].
    destruct (drop_last_infix 1 (drop_last (Z.abs_nat offset) tx)) as [post2 H2].
    exists [], (post2 ++ post1). rewrite app_nil_l, app_assoc, <- H2. exact H1.
  - destruct (drop_last_infix (Z.abs_nat offset) tx) as [post1 H1].
    now exists [], post1.
  - destruct (drop_infix (Z.abs_nat offset) tx) as [pre H1].
    destruct (drop_last_infix 1 (drop (Z.abs_nat offset) tx)) as [post2 H2].
    exists pre, post2. now rewrite <- H2.
  - destruct (drop_infix (Z.abs_nat offset) tx) as [pre H1].
    exists pre, []. now rewrite app_nil_r.
  - destruct (drop_last_infix 1 tx) as [post H]. now exists [], post.
  - exists [], []. now rewrite app_nil_r.
Qed.

Lemma crop_by_offset_removed (offset : Z) tx rx :
  (Z.abs offset < Z.of_nat (length tx))%Z ->
  length tx
  = (length (crop_by_offset offset tx rx).1
     + 2 * Z.to_nat ((Z.abs offset + 1) / 2))%nat.
Proof.
  intros Hb. unfold crop_by_offset.
  pose proof (Zmod_odd (Z.abs offset)) as Hodd. revert Hodd.
  destruct (Z.ltb_spec 0 offset); [|destruct (Z.ltb_spec offset 0)];
    destruct (Z.odd (Z.abs offset)); intros Hodd; cbn [fst];
    rewrite ?drop_last_length, ?length_drop, ?drop_last_length;
    zify; Z.div_mod_to_equations; lia.
Qed.

(** X8: what [align_samples] removes.  For buffers of equal length and a
    correlation of full length, the two buffers returned have the same
    length, the number of samples removed from TX is even, and the TX
    returned is a run of consecutive samples of the TX given (the fine
    alignment touches RX only). *)
Theorem align_samples_crop tx rx tx' rx' :
  length tx = length rx ->
  length (correlate rx tx) = (length rx + length tx - 1)%nat ->
  align_samples tx rx = Ok (tx', rx') ->
  length tx' = length rx'
  /\ (exists removed : nat, length tx = (length tx' + 2 * removed)%nat)
  /\ (exists pre post, tx = pre ++ tx' ++ post).
Proof.
  intros Hlen Hfull Hal. unfold align_samples in Hal.
  destruct (coarse_align tx rx) as [[tx1 rx1]|e] eqn:Hco; [|discriminate Hal].
  cbn [mbind result_bind] in Hal. injection Hal as <- <-.
  destruct (coarse_align_inv tx rx tx1 rx1 Hco) as (k & Hk & Hcrop).
  set (offset := (Z.of_nat k - (Z.of_nat (length tx) - 1))%Z) in *.
  assert (Htx1 : tx1 = (crop_by_offset offset tx rx).1) by now rewrite <- Hcrop.
  assert (Hrx1 : rx1 = (crop_by_offset offset tx rx).2) by now rewrite <- Hcrop.
  split; [|split].
  - rewrite phase_align_length, subsample_align_length, Htx1, Hrx1.
    now apply crop_by_offset_length.
  - exists (Z.to_nat ((Z.abs offset + 1) / 2)). rewrite Htx1.
    apply crop_by_offset_removed. unfold offset. lia.
  - rewrite Htx1. apply crop_by_offset_infix.
Qed.
End AlignSamples.

(** ** The order of IEEE-754 values *)
Section FloatOrder.
Implicit Types a b c : spec_float.

Ltac order_cases :=
  repeat match goal with
         | |- context [Z.compare ?x ?y] => destruct (Z.compare_spec x y)
         | |- context [Pos.compare_cont Eq ?x ?y] =>
             change (Pos.compare_cont Eq x y) with (Pos.compare x y);
             destruct (Pos.compare_spec x y)
         end;
  simpl; try reflexivity; try discriminate; try lia.

Lemma SFleb_trans a b c : SFleb a b = true -> SFleb b c = true -> SFleb a c = true.
Proof.
  unfold SFleb, SFcompare.
  destruct a as [[]|[]| |[] ma ea], b as [[]|[]| |[] mb eb], c as [[]|[]| |[] mc ec];
    simpl; try reflexivity; try discriminate; order_cases.
Qed.

Lemma SFltb_leb_trans a b c : SFltb a b = true -> SFleb b c = true -> SFltb a c = true.
Proof.
  unfold SFltb, SFleb, SFcompare.
  destruct a as [[]|[]| |[] ma ea], b as [[]|[]| |[] mb eb], c as [[]|[]| |[] mc ec];
    simpl; try reflexivity; try discriminate; order_cases.
Qed.

Lemma SFleb_ltb_trans a b c : SFleb a b = true -> SFltb b c = true -> SFltb a c = true.
Proof.
  unfold SFltb, SFleb, SFcompare.
  destruct a as [[]|[]| |[] ma ea], b as [[]|[]| |[] mb eb], c as [[]|[]| |[] mc ec];
    simpl; try reflexivity; try discriminate; order_cases.
Qed.

Lemma SFltb_irrefl a : SFltb a a = false.
Proof.
  unfold SFltb, SFcompare. destruct a as [[]|[]| |[] m e]; try reflexivity;
    now rewrite Z.compare_refl, Pos.compare_cont_refl.
Qed.

Lemma SFleb_not_nan a b : SFleb a b = true -> is_nan a = false /\ is_nan b = false.
Proof. destruct a, b; simpl; try discriminate; auto. Qed.
End FloatOrder.

Section Edges.
Context {P : Platform}.
Implicit Types self : Capture.

Lemma ascending_head (x : spec_float) (l : list spec_float) (j : nat) (y : spec_float) :
  ascending (x :: l) = true -> l !! j = Some y -> SFleb x y = true.
Proof.
  revert x j. induction l as [|z l IH]; intros x j Hasc Hj; [easy|].
  simpl in Hasc. apply andb_true_iff in Hasc as [Hxz Hasc].
  destruct j as [|j]; simpl in Hj.
  - now injection Hj as <-.
  - eapply SFleb_trans; [exact Hxz|]. eapply IH; eauto.
Qed.

Lemma ascending_tail (x : spec_float) (l : list spec_float) :
  ascending (x :: l) = true -> ascending l = true.
Proof. destruct l; simpl; [easy|]. now intros [_ H]%andb_true_iff. Qed.

Lemma ascending_lookup (l : list spec_float) (i j : nat) (x y : spec_float) :
  ascending l = true -> (i < j)%nat ->
  l !! i = Some x -> l !! j = Some y -> SFleb x y = true.
Proof.
  revert i j. induction l as [|z l IH]; intros i j Hasc Hij Hi Hj; [easy|].
  destruct j as [|j]; [lia|]. destruct i as [|i]; simpl in Hi, Hj.
  - injection Hi as ->. eapply ascending_head; eauto.
  - eapply (IH i j); eauto using ascending_tail. lia.
Qed.

Lemma edges32_facts self :
  bin_edges self = np_linspace (S754_zero false) (F64.of_Z 1) 64 ->
  ascending (edges32 self) = true
  /\ edges32 self !! 0%nat = Some (S754_zero false)
  /\ edges32 self !! 63%nat = Some (F32.of_Z 1)
  /\ length (edges32 self) = 64%nat.
Proof.
  intros He. unfold edges32. rewrite He. repeat split; vm_compute; reflexivity.
Qed.

Lemma intervals_edges32 self (i : nat) (lo hi : spec_float) :
  intervals self !! i = Some (lo, hi) ->
  edges32 self !! i = Some (F32.of_f64 lo) /\ edges32 self !! S i = Some (F32.of_f64 hi).
Proof.
  intros [Hlo Hhi]%intervals_lookup. unfold edges32.
  change (map F32.of_f64 (bin_edges self)) with (F32.of_f64 <$> bin_edges self).
  now rewrite !list_lookup_fmap, Hlo, Hhi.
Qed.

Lemma intervals_disjoint self (i j : nat) (lo hi lo' hi' a : spec_float) :
  bin_edges self = np_linspace (S754_zero false) (F64.of_Z 1) 64 ->
  intervals self !! i = Some (lo, hi) ->
  intervals self !! j = Some (lo', hi') ->
  in_interval lo hi a = true ->
  in_interval lo' hi' a = true ->
  i = j.
Proof.
  intros He Hi Hj Ha Ha'.
  destruct (edges32_facts self He) as (Hasc & _).
  apply intervals_edges32 in Hi as [Hlo Hhi], Hj as [Hlo' Hhi'].
  unfold in_interval in Ha, Ha'.
  apply andb_true_iff in Ha as [Hlt Hle], Ha' as [Hlt' Hle'].
  assert (Hgap : forall (i j : nat) l h,
             edges32 self !! S i = Some h ->
             edges32 self !! j = Some l ->
             (i < j)%nat -> SFleb a h = true -> SFltb l a = true -> False).
  { intros i0 j0 l h Hh Hl Hij Hah Hla.
    assert (Hhl : SFltb h a = true).
    { destruct (decide (S i0 = j0)) as [<-|Hne].
      - congruence.
      - eapply SFleb_ltb_trans; [|exact Hla].
        eapply (ascending_lookup _ (S i0) j0); eauto. lia. }
    pose proof (SFleb_ltb_trans _ _ _ Hah Hhl) as Habs.
    now rewrite SFltb_irrefl in Habs. }
  destruct (Nat.lt_trichotomy i j) as [Hlt0|[->|Hgt0]]; [|reflexivity|].
  - exfalso. eapply (Hgap i j); eauto.
  - exfalso. eapply (Hgap j i); eauto.
Qed.

(** Every magnitude that passes the test of an interval is above 0 and at
    most 1. *)
Lemma in_interval_range self (i : nat) (lo hi a : spec_float) :
  bin_edges self = np_linspace (S754_zero false) (F64.of_Z 1) 64 ->
  intervals self !! i = Some (lo, hi) ->
  in_interval lo hi a = true ->
  SFltb (S754_zero false) a = true /\ SFleb a (F32.of_Z 1) = true.
Proof.
  intros He Hi Ha.
  destruct (edges32_facts self He) as (Hasc & H0 & H63 & Hlen).
  apply intervals_edges32 in Hi as [Hlo Hhi].
  apply andb_true_iff in Ha as [Hlt Hle].
  pose proof (lookup_lt_Some _ _ _ Hhi) as Hb. rewrite Hlen in Hb.
  split.
  - destruct i as [|i].
    + assert (Heq : F32.of_f64 lo = S754_zero false) by congruence.
      now rewrite <- Heq.
    + eapply SFleb_ltb_trans; [|exact Hlt].
      eapply (ascending_lookup _ 0 (S i)); eauto. lia.
  - destruct (decide (S i = 63%nat)) as [Heq|Hne].
    + rewrite Heq in Hhi.
      assert (Heq1 : F32.of_f64 hi = F32.of_Z 1) by congruence.
      now rewrite <- Heq1.
    + eapply SFleb_trans; [exact Hle|].
      eapply (ascending_lookup _ (S i) 63); eauto. lia.
Qed.

End Edges.

Section CallFacts.
Context {P : Platform} {FA : FineAlign}.
Implicit Types self : Capture.
Implicit Types tx rx : list sample.

(** The loop on an empty TX frame, over bins that exist: every turn
    returns and nothing is stored. *)
Lemma for_each_bin_body_empty_tx rx (its : list (nat * (spec_float * spec_float))) self :
  Forall (fun it => (it.1 < length (accumulated_bins self))%nat) its ->
  for_each (bin_body [] rx) its self = (Ok tt, self).
Proof.
  induction its as [|[i [lo hi]] its IH]; intros Hits; [reflexivity|].
  apply Forall_cons in Hits as [Hi Hits]. cbn [fst] in Hi.
  destruct (lookup_lt_is_Some_2 (accumulated_bins self) i Hi) as [bin Hbin].
  rewrite (for_each_cons_ok _ _ _ _ _ (bin_body_empty_tx rx i lo hi self bin Hbin)).
  now apply IH.
Qed.

(** On a well-formed object [_bin_and_accumulate] raises exactly when the
    two frames differ in length and TX is not empty; when it raises, and when
    TX alone is empty, it has stored nothing. *)
Lemma bin_and_accumulate_cases tx rx self :
  well_formed self ->
  _bin_and_accumulate tx rx self
  = if decide (length tx = length rx)
    then (Ok tt,
          set_accumulated_bins
            (accumulate_bins 128 tx rx (intervals self) (accumulated_bins self)) self)
    else if decide (tx = []) then (Ok tt, self)
    else (Raise BooleanIndexMismatch, self).
Proof.
  intros Hwf. destruct (decide (length tx = length rx)) as [Hlen|Hlen].
  - rewrite bin_and_accumulate_ok by
      (try easy; rewrite (wf_intervals_length _ Hwf), (wf_count _ Hwf); lia).
    now rewrite (wf_n_per_bin _ Hwf).
  - rewrite bin_and_accumulate_unfold.
    pose proof (wf_intervals_length _ Hwf) as Hiv.
    destruct (decide (tx = [])) as [->|Hne].
    + apply for_each_bin_body_empty_tx. apply Forall_forall.
      intros [i iv] Hin. cbn [fst].
      apply list_elem_of_lookup in Hin as [j Hj].
      apply lookup_zip_with_Some in Hj as (i' & iv' & Heq & Hi & Hiv').
      injection Heq as -> ->.
      apply lookup_seq in Hi as [-> _].
      apply lookup_lt_Some in Hiv'. rewrite (wf_count _ Hwf). lia.
    + rewrite (wf_bin_edges _ Hwf).
      destruct (intervals self) as [|iv ivs]; [discriminate|].
      change (length (np_linspace (S754_zero false) (F64.of_Z 1) 64)) with 64%nat.
      simpl zip.
      now rewrite (for_each_cons_raise _ _ _ _ _ _
                     (bin_body_mismatch tx rx _ self Hlen Hne)).
Qed.

(** [get_samples] either leaves the object as it is or ends with the
    binning of some pair of frames. *)
Lemma get_samples_state (p : peer) self :
  (is_ok (get_samples p self).1 = false /\ (get_samples p self).2 = self
   \/ is_ok (get_samples p self).1 = false
      /\ exists tx rx, is_ok (_bin_and_accumulate tx rx self).1 = false
                       /\ (get_samples p self).2 = (_bin_and_accumulate tx rx self).2)
  \/ exists r, (get_samples p self).1 = Ok r
               /\ _bin_and_accumulate (txframe_aligned r) (rxframe_aligned r) self
                  = (Ok tt, (get_samples p self).2).
Proof.
  rewrite get_samples_unfold.
  destruct (receive_tcp self p).1 as [[[[txframe tx_ts0] rxframe] rx_ts0]|e];
    [|left; left; easy].
  destruct (normalize self txframe rxframe) as [[[rx_scaled tx_med] rx_med]|e];
    [|left; left; easy].
  unfold align_and_bin, mbind, st_bind, lift.
  destruct (align_samples txframe rx_scaled) as [[tx_al rx_al]|e]; [|left; left; easy].
  destruct (_bin_and_accumulate tx_al rx_al self) as [[[]|e] s1] eqn:Hb.
  - right. eexists. split; [reflexivity|]. exact Hb.
  - left. right. split; [easy|]. exists tx_al, rx_al. now rewrite Hb.
Qed.

Lemma get_samples_wf (p : peer) self :
  well_formed self ->
  well_formed (get_samples p self).2
  /\ Forall2 bin_step (accumulated_bins self) (accumulated_bins (get_samples p self).2).
Proof.
  intros Hwf.
  assert (Hrefl : Forall2 bin_step (accumulated_bins self) (accumulated_bins self)).
  { apply Forall_Forall2_diag. eapply Forall_impl; [exact (wf_capacity _ Hwf)|].
    intros bin Hb. now apply bin_step_refl. }
  destruct (get_samples_state p self) as [[[_ ->]|(_ & tx & rx & _ & ->)]|(r & _ & Hb)].
  - easy.
  - now apply bin_and_accumulate_wf.
  - pose proof (bin_and_accumulate_wf (txframe_aligned r) (rxframe_aligned r) self Hwf) as H.
    now rewrite Hb in H.
Qed.

Lemma run_calls_snoc (calls : list call) (c : call) self :
  run_calls (calls ++ [c]) self = run_call c (run_calls calls self).
Proof. unfold run_calls. now rewrite foldl_snoc. Qed.

Lemma run_calls_wf (calls : list call) self :
  well_formed self ->
  well_formed (run_calls calls self)
  /\ Forall2 bin_step (accumulated_bins self) (accumulated_bins (run_calls calls self)).
Proof.
  intros Hwf. induction calls as [|c calls IH] using rev_ind.
  - split; [easy|]. apply Forall_Forall2_diag.
    eapply Forall_impl; [exact (wf_capacity _ Hwf)|].
    intros bin Hb. now apply bin_step_refl.
  - destruct IH as [Hwf' Hstep]. rewrite run_calls_snoc.
    assert (Hc : well_formed (run_call c (run_calls calls self))
                 /\ Forall2 bin_step (accumulated_bins (run_calls calls self))
                      (accumulated_bins (run_call c (run_calls calls self)))).
    { destruct c as [p|tx rx]; simpl.
      - now apply get_samples_wf.
      - now apply bin_and_accumulate_wf. }
    destruct Hc as [Hwf'' Hstep']. split; [easy|].
    eapply Forall2_trans; [|exact Hstep|exact Hstep'].
    intros ? ? ?. apply bin_step_trans.
Qed.

Lemma reachable_wf (sr prt n : Z) (calls : list call) :
  well_formed (run_calls calls (init sr prt n)).
Proof. apply run_calls_wf, well_formed_init. Qed.

(** X9: [get_samples] stores all or nothing.  On an object reached from
    [__init__] by any history of calls, a call of [get_samples] that raises,
    at whatever stage, leaves the object exactly as it was. *)
Theorem get_samples_all_or_nothing (sr prt n : Z) (calls : list call) (p : peer) :
  let self := run_calls calls (init sr prt n) in
  is_ok (get_samples p self).1 = false -> (get_samples p self).2 = self.
Proof.
  intros self Hfail.
  pose proof (reachable_wf sr prt n calls) as Hwf. fold self in Hwf.
  destruct (get_samples_state p self) as [[[_ ->]|(_ & tx & rx & Hb & ->)]|(r & Hr & _)].
  - reflexivity.
  - rewrite (bin_and_accumulate_cases tx rx self Hwf) in Hb |- *.
    destruct (decide (length tx = length rx)); [easy|].
    now destruct (decide (tx = [])).
  - now rewrite Hr in Hfail.
Qed.

(** X17: over any history of [get_samples] and [_bin_and_accumulate]
    calls, failed ones included, there are 64 bins; every bin keeps the pairs
    it had as a prefix, holds at most 128 pairs, and does not change once it
    is full; the total count never decreases and is at most [63 * 128]. *)
Theorem calls_keep_bins_bounded (sr prt n : Z) (calls1 calls2 : list call) :
  let before := run_calls calls1 (init sr prt n) in
  let after := run_calls calls2 before in
  length (accumulated_bins after) = 64%nat
  /\ Forall2 (fun bin bin' =>
                bin `prefix_of` bin' /\ (length bin' <= 128)%nat
                /\ (length bin = 128%nat -> bin' = bin))
       (accumulated_bins before) (accumulated_bins after)
  /\ (sum_list (bin_histogram before) <= sum_list (bin_histogram after))%nat
  /\ (sum_list (bin_histogram after) <= 63 * 128)%nat.
Proof.
  intros before after.
  pose proof (reachable_wf sr prt n calls1) as Hwf. fold before in Hwf.
  destruct (run_calls_wf calls2 before Hwf) as [Hwf' Hstep]. fold after in Hwf', Hstep.
  repeat split.
  - exact (wf_count _ Hwf').
  - exact Hstep.
  - now apply sum_lengths_le.
  - now apply wf_total.
Qed.

(** X18: the last of the 64 bins is never fed: 64 edges make 63
    intervals, so after any history of calls bin 63 is empty and its count in
    [bin_histogram] is 0. *)
Theorem last_bin_stays_empty (sr prt n : Z) (calls : list call) :
  let self := run_calls calls (init sr prt n) in
  accumulated_bins self !! 63%nat = Some []
  /\ bin_histogram self !! 63%nat = Some 0%nat.
Proof.
  intros self. pose proof (reachable_wf sr prt n calls) as Hwf. fold self in Hwf.
  split; [exact (wf_last _ Hwf)|].
  unfold bin_histogram.
  change (map length (accumulated_bins self)) with (length <$> accumulated_bins self).
  now rewrite list_lookup_fmap, (wf_last _ Hwf).
Qed.

(** X13: after any history of calls, the TX sample of every stored pair
    has a magnitude above 0 and at most 1, and not NaN: samples of magnitude
    0, above 1 or NaN are never stored. *)
Theorem stored_magnitudes_in_range (sr prt n : Z) (calls : list call)
    (i : nat) (bin : list sample_pair) (tr : sample_pair) :
  accumulated_bins (run_calls calls (init sr prt n)) !! i = Some bin ->
  tr ∈ bin ->
  SFltb (S754_zero false) (cabs tr.1) = true
  /\ SFleb (cabs tr.1) (F32.of_Z 1) = true
  /\ is_nan (cabs tr.1) = false.
Proof.
  intros Hbin Hin.
  pose proof (reachable_wf sr prt n calls) as Hwf.
  destruct (wf_member _ Hwf i bin tr Hbin Hin) as (lo & hi & Hiv & Hok).
  destruct (in_interval_range _ i lo hi _ (wf_bin_edges _ Hwf) Hiv Hok) as [H0 H1].
  repeat split; try easy. now destruct (SFleb_not_nan _ _ H1).
Qed.

(** X11: on an object reached from [__init__] by any history of calls,
    [_bin_and_accumulate] raises exactly when the two frames differ in
    length and TX is not empty (the boolean index does not fit RX); with an
    empty TX the empty index fits an RX of any length and the call returns.
    Whenever the lengths differ, it has stored nothing. *)
Theorem bin_and_accumulate_raises_iff (sr prt n : Z) (calls : list call) tx rx :
  let self := run_calls calls (init sr prt n) in
  (_bin_and_accumulate tx rx self).1
  = (if decide (length tx = length rx) then Ok tt
     else if decide (tx = []) then Ok tt
     else Raise BooleanIndexMismatch)
  /\ (length tx <> length rx -> (_bin_and_accumulate tx rx self).2 = self).
Proof.
  intros self. pose proof (reachable_wf sr prt n calls) as Hwf. fold self in Hwf.
  rewrite (bin_and_accumulate_cases tx rx self Hwf).
  destruct (decide (length tx = length rx)); [easy|].
  now destruct (decide (tx = [])).
Qed.
End CallFacts.

Section Counting.
Context {P : Platform} {FA : FineAlign}.
Implicit Types self : Capture.
Implicit Types tx rx : list sample.
Implicit Types ivs : list (spec_float * spec_float).

Lemma extend_bin_count (bin cands : list sample_pair) :
  (length bin <= 128)%nat ->
  length (extend_bin 128 bin cands) = Nat.min 128 (length bin + length cands).
Proof.
  intros Hle. rewrite extend_bin_take by lia.
  rewrite length_app, length_take. lia.
Qed.

(** X15: what a call does to [bin_histogram]: on frames of equal length,
    the count of bin [i] becomes [min(128, h + c)], where [h] is its count
    before and [c] the number of pairs of the call whose TX magnitude lies in
    interval [i]. *)
Theorem histogram_update (sr prt n : Z) (calls : list call) tx rx
    (i h : nat) (lo hi : spec_float) :
  let self := run_calls calls (init sr prt n) in
  let self' := (_bin_and_accumulate tx rx self).2 in
  length tx = length rx ->
  intervals self !! i = Some (lo, hi) ->
  bin_histogram self !! i = Some h ->
  bin_histogram self' !! i
  = Some (Nat.min 128
            (h + length (filter (fun tr => Is_true (in_interval lo hi (cabs tr.1)))
                                (zip tx rx)))).
Proof.
  intros self self' Hlen Hiv Hh.
  pose proof (reachable_wf sr prt n calls) as Hwf. fold self in Hwf.
  unfold self'. rewrite (bin_and_accumulate_cases tx rx self Hwf).
  destruct (decide (length tx = length rx)); [|easy].
  unfold bin_histogram in *. cbn [snd accumulated_bins set_accumulated_bins].
  change (map length ?l) with (length <$> l) in *.
  rewrite list_lookup_fmap in Hh |- *.
  rewrite accumulate_bins_lookup, Hiv.
  destruct (accumulated_bins self !! i) as [bin|] eqn:Hbin; [|discriminate].
  simpl in Hh |- *. injection Hh as <-. f_equal.
  apply extend_bin_count.
  exact (Forall_lookup_1 _ _ _ _ (wf_capacity _ Hwf) Hbin).
Qed.

Lemma sum_accumulate_bins tx rx ivs (bins : list (list sample_pair)) :
  Forall (fun bin => (length bin <= 128)%nat) bins ->
  (sum_list (map length (accumulate_bins 128 tx rx ivs bins))
   <= sum_list (map length bins)
      + sum_list (map (fun iv => length (candidates tx rx iv.1 iv.2)) ivs))%nat.
Proof.
  revert bins. induction ivs as [|[lo hi] ivs IH]; intros bins Hcap.
  - destruct bins; simpl; lia.
  - destruct bins as [|bin bins]; simpl; [lia|].
    apply Forall_cons in Hcap as [Hb Hcap]. specialize (IH bins Hcap).
    rewrite extend_bin_count by easy. lia.
Qed.

(** Among predicates of which no two hold of one element, at most one
    holds of it. *)
Lemma count_holding {A B} (holds : B -> A -> bool) (ivs : list B) (x : A) :
  (forall (i j : nat) iv iv',
      ivs !! i = Some iv -> ivs !! j = Some iv' ->
      holds iv x = true -> holds iv' x = true -> i = j) ->
  (sum_list (map (fun iv => if holds iv x then 1 else 0) ivs) <= 1)%nat.
Proof.
  induction ivs as [|iv ivs IH]; intros Hdis; simpl; [lia|].
  assert (Htail : forall (i j : nat) iv1 iv2,
             ivs !! i = Some iv1 -> ivs !! j = Some iv2 ->
             holds iv1 x = true -> holds iv2 x = true -> i = j).
  { intros i j iv1 iv2 Hi Hj H1 H2.
    pose proof (Hdis (S i) (S j) iv1 iv2 Hi Hj H1 H2). lia. }
  specialize (IH Htail).
  destruct (holds iv x) eqn:Hx; [|lia].
  assert (Hzero : sum_list (map (fun iv => if holds iv x then 1 else 0) ivs) = 0%nat).
  { clear IH Htail. assert (Hnone : forall (j : nat) iv', ivs !! j = Some iv' -> holds iv' x = false).
    { intros j iv' Hj. destruct (holds iv' x) eqn:Hx'; [|reflexivity].
      pose proof (Hdis 0%nat (S j) iv iv' eq_refl Hj Hx Hx'). lia. }
    clear Hdis. induction ivs as [|iv' ivs IH']; simpl; [reflexivity|].
    rewrite (Hnone 0%nat iv' eq_refl). simpl.
    apply IH'. intros j iv'' Hj. exact (Hnone (S j) iv'' Hj). }
  lia.
Qed.

Lemma sum_filters_le {A B} (holds : B -> A -> bool) (ivs : list B) (l : list A) :
  (forall x (i j : nat) iv iv',
      ivs !! i = Some iv -> ivs !! j = Some iv' ->
      holds iv x = true -> holds iv' x = true -> i = j) ->
  (sum_list (map (fun iv => length (filter (fun x => Is_true (holds iv x)) l)) ivs)
   <= length l)%nat.
Proof.
  intros Hdis. induction l as [|x l IH]; simpl.
  - clear Hdis. induction ivs as [|iv ivs IH]; simpl; [lia|]. exact IH.
  - pose proof (count_holding holds ivs x (Hdis x)) as Hx.
    assert (Hsplit : sum_list (map (fun iv => length (filter (fun x => Is_true (holds iv x)) (x :: l))) ivs)
                     = (sum_list (map (fun iv => if holds iv x then 1 else 0) ivs)
                        + sum_list (map (fun iv => length (filter (fun x => Is_true (holds iv x)) l)) ivs))%nat).
    { clear. induction ivs as [|iv ivs IH]; simpl; [reflexivity|].
      rewrite IH, filter_cons. destruct (holds iv x); simpl; lia. }
    lia.
Qed.

(** X16: one call of [_bin_and_accumulate] raises the total count by at
    most the number of TX samples it was given: no pair is stored in two
    bins. *)
Theorem call_stores_at_most_its_samples (sr prt n : Z) (calls : list call) tx rx :
  let self := run_calls calls (init sr prt n) in
  let self' := (_bin_and_accumulate tx rx self).2 in
  (sum_list (bin_histogram self') <= sum_list (bin_histogram self) + length tx)%nat.
Proof.
  intros self self'.
  pose proof (reachable_wf sr prt n calls) as Hwf. fold self in Hwf.
  unfold self'. rewrite (bin_and_accumulate_cases tx rx self Hwf).
  destruct (decide (length tx = length rx)) as [Hlen|Hlen];
    [|destruct (decide (tx = [])); simpl; lia].
  unfold bin_histogram. cbn [snd accumulated_bins set_accumulated_bins].
  pose proof (sum_accumulate_bins tx rx (intervals self) _ (wf_capacity _ Hwf)) as Hsum.
  pose proof (sum_filters_le (fun (iv : spec_float * spec_float) (tr : sample_pair) =>
                                in_interval iv.1 iv.2 (cabs tr.1))
                (intervals self) (zip tx rx)) as Hfil.
  assert (Hle : (length (zip tx rx) <= length tx)%nat).
  { rewrite length_zip_with. lia. }
  unfold candidates in Hsum.
  assert (Hdis : forall (x : sample_pair) (i j : nat) (iv iv' : spec_float * spec_float),
             intervals self !! i = Some iv -> intervals self !! j = Some iv' ->
             in_interval iv.1 iv.2 (cabs x.1) = true ->
             in_interval iv'.1 iv'.2 (cabs x.1) = true -> i = j).
  { intros x i j [lo hi] [lo' hi'] Hi Hj Hx Hx'.
    exact (intervals_disjoint self i j lo hi lo' hi' _ (wf_bin_edges _ Hwf) Hi Hj Hx Hx'). }
  specialize (Hfil Hdis). lia.
Qed.
End Counting.

Section FloatTotal.
Implicit Types a b : spec_float.

Lemma SFleb_total a b :
  is_nan a = false -> is_nan b = false -> SFleb a b = false -> SFltb b a = true.
Proof.
  unfold SFleb, SFltb, SFcompare.
  destruct a as [[]|[]| |[] ma ea], b as [[]|[]| |[] mb eb];
    simpl; try reflexivity; try discriminate; intros _ _;
    repeat match goal with
           | |- context [Z.compare ?x ?y] =>
               rewrite (Z.compare_antisym x y); destruct (Z.compare x y)
           | |- context [Pos.compare_cont Eq ?x ?y] =>
               change (Pos.compare_cont Eq x y) with (Pos.compare x y);
               change (Pos.compare_cont Eq y x) with (Pos.compare y x);
               rewrite (Pos.compare_antisym x y); destruct (Pos.compare x y)
           end; simpl; try reflexivity; try discriminate.
Qed.

Lemma SFltb_not_nan a b : SFltb a b = true -> is_nan a = false /\ is_nan b = false.
Proof. destruct a, b; simpl; try discriminate; auto. Qed.
End FloatTotal.

Section Cover.
Context {P : Platform} {FA : FineAlign}.
Implicit Types self : Capture.
Implicit Types tx rx : list sample.

Lemma ascending_cover (l : list spec_float) (first last a : spec_float) :
  ascending l = true ->
  l !! 0%nat = Some first ->
  l !! (length l - 1)%nat = Some last ->
  SFltb first a = true -> SFleb a last = true ->
  exists (i : nat) lo hi,
    l !! i = Some lo /\ l !! S i = Some hi
    /\ SFltb lo a = true /\ SFleb a hi = true.
Proof.
  revert first. induction l as [|x l IH]; intros first Hasc H0 Hlast Hlt Hle; [easy|].
  simpl in H0. injection H0 as ->.
  destruct l as [|y l].
  - simpl in Hlast. injection Hlast as ->.
    pose proof (SFleb_ltb_trans _ _ _ Hle Hlt) as Habs.
    now rewrite SFltb_irrefl in Habs.
  - pose proof Hasc as Hasc'. simpl in Hasc'.
    apply andb_true_iff in Hasc' as [Hxy Hasc'].
    destruct (SFleb a y) eqn:Hay.
    + exists 0%nat, first, y. easy.
    + assert (Hya : SFltb y a = true).
      { apply SFleb_total; [| |exact Hay].
        - now destruct (SFltb_not_nan _ _ Hlt).
        - now destruct (SFleb_not_nan _ _ Hxy). }
      destruct (IH y) as (i & lo & hi & Hi & HSi & Hlo & Hhi); try easy.
      { replace (length (y :: l) - 1)%nat with (length l) by (simpl; lia).
        replace (length (first :: y :: l) - 1)%nat with (S (length l)) in Hlast
          by (simpl; lia).
        exact Hlast. }
      exists (S i), lo, hi. easy.
Qed.

Lemma edges32_lookup self (i : nat) (x : spec_float) :
  edges32 self !! i = Some x ->
  exists e, bin_edges self !! i = Some e /\ x = F32.of_f64 e.
Proof.
  unfold edges32.
  change (map F32.of_f64 (bin_edges self)) with (F32.of_f64 <$> bin_edges self).
  rewrite list_lookup_fmap. destruct (bin_edges self !! i) as [e|]; [|discriminate].
  intros [= <-]. now exists e.
Qed.

Lemma intervals_cover self (a : spec_float) :
  bin_edges self = np_linspace (S754_zero false) (F64.of_Z 1) 64 ->
  SFltb (S754_zero false) a = true ->
  SFleb a (F32.of_Z 1) = true ->
  exists (i : nat) lo hi,
    intervals self !! i = Some (lo, hi) /\ in_interval lo hi a = true.
Proof.
  intros He Hlt Hle.
  destruct (edges32_facts self He) as (Hasc & H0 & H63 & Hlen).
  destruct (ascending_cover (edges32 self) (S754_zero false) (F32.of_Z 1) a Hasc H0)
    as (i & x & y & Hi & HSi & Hx & Hy);
    [now rewrite Hlen | exact Hlt | exact Hle |].
  apply edges32_lookup in Hi as (lo & Hlo & ->), HSi as (hi & Hhi & ->).
  exists i, lo, hi. split.
  - apply intervals_lookup. split; assumption.
  - unfold in_interval. now rewrite Hx, Hy.
Qed.

(** X12: the intervals of the bins cut the magnitudes above 0 and at most
    1 into 63 parts: a magnitude passes the test of some interval exactly
    when it is above 0 and at most 1 (as binary32 values), and then it passes
    the test of one interval only, that of a bin below 63. *)
Theorem magnitude_has_a_bin_iff (sr prt n : Z) (calls : list call) (a : spec_float) :
  let self := run_calls calls (init sr prt n) in
  ((exists (i : nat) lo hi,
       intervals self !! i = Some (lo, hi) /\ in_interval lo hi a = true)
   <-> SFltb (S754_zero false) a = true /\ SFleb a (F32.of_Z 1) = true)
  /\ (forall (i j : nat) lo hi lo' hi',
         intervals self !! i = Some (lo, hi) -> in_interval lo hi a = true ->
         intervals self !! j = Some (lo', hi') -> in_interval lo' hi' a = true ->
         i = j /\ (i < 63)%nat).
Proof.
  intros self. pose proof (reachable_wf sr prt n calls) as Hwf. fold self in Hwf.
  pose proof (wf_bin_edges _ Hwf) as He.
  split; [split|].
  - intros (i & lo & hi & Hiv & Hin). exact (in_interval_range self i lo hi a He Hiv Hin).
  - intros [Hlt Hle]. now apply intervals_cover.
  - intros i j lo hi lo' hi' Hi Hin Hj Hin'. split.
    + exact (intervals_disjoint self i j lo hi lo' hi' a He Hi Hj Hin Hin').
    + apply lookup_lt_Some in Hi. now rewrite (wf_intervals_length _ Hwf) in Hi.
Qed.

(** A pair whose TX magnitude has a bin is in that bin after the call, or
    the bin is full. *)
Lemma stored_or_full self tx rx (tr : sample_pair) :
  well_formed self ->
  length tx = length rx ->
  tr ∈ zip tx rx ->
  SFltb (S754_zero false) (cabs tr.1) = true ->
  SFleb (cabs tr.1) (F32.of_Z 1) = true ->
  exists (i : nat) lo hi bin',
    (intervals self !! i = Some (lo, hi)
     /\ in_interval lo hi (cabs tr.1) = true
     /\ forall (j : nat) lo' hi',
          intervals self !! j = Some (lo', hi') ->
          in_interval lo' hi' (cabs tr.1) = true -> j = i)
    /\ accumulated_bins (_bin_and_accumulate tx rx self).2 !! i = Some bin'
    /\ (tr ∈ bin' \/ length bin' = 128%nat).
Proof.
  intros Hwf Hlen Hin Hlt Hle.
  destruct (intervals_cover self (cabs tr.1) (wf_bin_edges _ Hwf) Hlt Hle)
    as (i & lo & hi & Hiv & Hok).
  pose proof (lookup_lt_Some _ _ _ Hiv) as Hi.
  rewrite (wf_intervals_length _ Hwf) in Hi.
  destruct (lookup_lt_is_Some_2 (accumulated_bins self) i) as [bin Hbin];
    [rewrite (wf_count _ Hwf); lia|].
  pose proof (Forall_lookup_1 _ _ _ _ (wf_capacity _ Hwf) Hbin) as Hcap.
  cbv beta in Hcap. rewrite (bin_and_accumulate_cases tx rx self Hwf).
  destruct (decide (length tx = length rx)); [|easy].
  cbn [snd accumulated_bins set_accumulated_bins].
  exists i, lo, hi, (extend_bin 128 bin (candidates tx rx lo hi)).
  split; [|split].
  { split; [exact Hiv|]. split; [exact Hok|].
    intros j lo' hi' Hj Hok'.
    exact (intervals_disjoint self j i lo' hi' lo hi _ (wf_bin_edges _ Hwf) Hj Hiv Hok' Hok). }
  { now rewrite accumulate_bins_lookup, Hiv, Hbin. }
  assert (Hcand : tr ∈ candidates tx rx lo hi).
  { unfold candidates. apply list_elem_of_filter. split; [|exact Hin].
    now rewrite Hok. }
  rewrite extend_bin_take by lia.
  set (room := Z.to_nat (128 - Z.of_nat (length bin))).
  destruct (Nat.le_gt_cases (length (candidates tx rx lo hi)) room) as [Hfit|Hover].
  - left. rewrite take_ge by exact Hfit. apply elem_of_app. now right.
  - right. rewrite length_app, length_take. unfold room in *. lia.
Qed.

(** X14: on an object reached from [__init__] by any history of calls, a
    call on frames of equal length stores every pair whose TX magnitude is
    above 0 and at most 1 in the bin of that magnitude, the one bin whose
    interval test the magnitude passes, unless this bin is full after the
    call: a pair is dropped only for want of room in its own bin. *)
Theorem pair_in_range_is_stored (sr prt n : Z) (calls : list call) tx rx
    (tr : sample_pair) :
  let self := run_calls calls (init sr prt n) in
  let self' := (_bin_and_accumulate tx rx self).2 in
  length tx = length rx ->
  tr ∈ zip tx rx ->
  SFltb (S754_zero false) (cabs tr.1) = true ->
  SFleb (cabs tr.1) (F32.of_Z 1) = true ->
  exists (i : nat) lo hi bin',
    (intervals self !! i = Some (lo, hi)
     /\ in_interval lo hi (cabs tr.1) = true
     /\ forall (j : nat) lo' hi',
          intervals self !! j = Some (lo', hi') ->
          in_interval lo' hi' (cabs tr.1) = true -> j = i)
    /\ accumulated_bins self' !! i = Some bin'
    /\ (tr ∈ bin' \/ length bin' = 128%nat).
Proof.
  intros self self'. apply stored_or_full. apply reachable_wf.
Qed.
End Cover.

(** ** The point cloud *)
Section PointCloudFacts.
Context {P : Platform} {FA : FineAlign}.

Lemma scatter_bins_empty (bins : list (list sample_pair)) scattered :
  sum_list (map length bins) = 0%nat -> scatter_bins bins scattered = Png scattered.
Proof.
  induction bins as [|b bins IH]; simpl; [reflexivity|].
  destruct b; simpl; [exact IH | lia].
Qed.

Lemma scatter_bins_stored (bins : list (list sample_pair)) scattered :
  sum_list (map length bins) <> 0%nat -> scatter_bins bins scattered = TruthValueError.
Proof.
  induction bins as [|b bins IH]; simpl; [lia|].
  destruct b; simpl; [exact IH | reflexivity].
Qed.

(** X19: [pointcloud_png] returns an image only while every bin is empty,
    and then nothing is scattered on it; as soon as some bin holds a pair, the
    test [if b:] of that bin raises (the truth value of an array of several
    elements), so the stored pairs are never drawn. *)
Theorem pointcloud_png_needs_empty_bins (self : Capture) :
  pointcloud_png self
  = if (sum_list (bin_histogram self) =? 0)%nat then Png [] else TruthValueError.
Proof.
  unfold pointcloud_png, bin_histogram.
  destruct (Nat.eqb_spec (sum_list (map length (accumulated_bins self))) 0) as [H|H].
  - now apply scatter_bins_empty.
  - now apply scatter_bins_stored.
Qed.

(** X20: once [_bin_and_accumulate] has been given, on frames of equal
    length, one pair whose TX magnitude is above 0 and at most 1,
    [pointcloud_png] raises, then and after any calls that follow. *)
Theorem pointcloud_png_raises_after_store (sr prt n : Z) (calls calls' : list call)
    tx rx (tr : sample_pair) :
  let self := run_calls calls (init sr prt n) in
  let self' := (_bin_and_accumulate tx rx self).2 in
  length tx = length rx ->
  tr ∈ zip tx rx ->
  SFltb (S754_zero false) (cabs tr.1) = true ->
  SFleb (cabs tr.1) (F32.of_Z 1) = true ->
  pointcloud_png (run_calls calls' self') = TruthValueError.
Proof.
  intros self self' Hlen Hin Hlt Hle.
  pose proof (reachable_wf sr prt n calls) as Hwf. fold self in Hwf.
  assert (Hwf' : well_formed self').
  { now apply bin_and_accumulate_wf. }
  destruct (run_calls_wf calls' self' Hwf') as [Hwf'' Hstep].
  apply sum_lengths_le in Hstep.
  assert (Hpos : (0 < sum_list (map length (accumulated_bins self')))%nat).
  { destruct (stored_or_full self tx rx tr Hwf Hlen Hin Hlt Hle)
      as (i & lo & hi & bin' & _ & Hbin' & Hor).
    fold self' in Hbin'.
    assert (Hne : (0 < length bin')%nat).
    { destruct Hor as [Hel|Hfull]; [|lia].
      destruct bin'; [now apply elem_of_nil in Hel | simpl; lia]. }
    clear -Hbin' Hne. revert i Hbin'.
    induction (accumulated_bins self') as [|b bins IH]; intros i Hbin'; [easy|].
    destruct i as [|i]; simpl in *.
    - injection Hbin' as ->. lia.
    - specialize (IH i Hbin'). lia. }
  unfold pointcloud_png. apply scatter_bins_stored.
  unfold bin_histogram in *. lia.
Qed.
End PointCloudFacts.

(** ** From the reply to the result *)
Section Returned.
Context {P : Platform} {FA : FineAlign}.
Implicit Types self : Capture.
Implicit Types p : peer.

Lemma recv_exact_stalled (num_bytes : nat) (s : socket) :
  (length (pending (inbox s)) < num_bytes)%nat ->
  stalls (inbox s) = true ->
  exists s', _recv_exact num_bytes s = (Raise SocketTimeout, s').
Proof.
  intros Hshort Hst.
  destruct (recv_loop_stalled num_bytes num_bytes [] s (Nat.le_refl _) Hshort Hst)
    as (s' & Hloop & _).
  exists s'. unfold _recv_exact. now erewrite bind_raise by exact Hloop.
Qed.

(** X21: a peer that accepts and then delivers fewer than the 12 bytes of
    the TX header makes [receive_tcp] raise: the timeout when the peer
    stalls, and [struct.error] when it closes; neither way is the socket
    closed. *)
Theorem receive_tcp_short_header self p :
  accepts p = true ->
  is_ok (pack_I (num_samples_to_request self)) = true ->
  (length (pending (script p)) < 12)%nat ->
  (receive_tcp self p).1
  = Raise (if stalls (script p) then SocketTimeout else StructError)
  /\ is_open (receive_tcp self p).2 = true.
Proof.
  intros Hacc Hreq Hshort.
  assert (Hres : (receive_tcp self p).1
                 = Raise (if stalls (script p) then SocketTimeout else StructError)).
  { destruct (stalls (script p)) eqn:Hst.
    - unfold receive_tcp, receive_tcp_on.
      destruct (pack_I (num_samples_to_request self)) as [req|] eqn:Hp; [|discriminate].
      erewrite bind_ok by (unfold connect; rewrite Hacc; reflexivity).
      erewrite bind_ok by reflexivity.
      erewrite bind_ok by reflexivity.
      erewrite bind_ok by reflexivity.
      match goal with |- context [mbind _ (_recv_exact 12) ?s] => set (s0 := s) end.
      destruct (recv_exact_stalled 12 s0 Hshort Hst) as (s' & Hr).
      now erewrite bind_raise by exact Hr.
    - rewrite receive_tcp_parse by assumption. unfold parse_reply.
      rewrite unpack_III_short; [reflexivity|].
      rewrite length_take. lia. }
  split; [exact Hres|].
  now rewrite receive_tcp_closes_iff_ok, Hres.
Qed.

(** X22: what [get_samples] returns is what [receive_tcp] received: the
    two timestamps are those of the reply, the TX samples returned are a run
    of consecutive samples of the TX frame received, unchanged, and there
    are no more RX samples than were received. *)
Theorem get_samples_returns_received self p (r : samples) :
  (get_samples p self).1 = Ok r ->
  exists (txframe rxframe : list sample),
    (receive_tcp self p).1 = Ok (txframe, tx_ts r, rxframe, rx_ts r)
    /\ (exists pre post, txframe = pre ++ txframe_aligned r ++ post)
    /\ (length (rxframe_aligned r) <= length rxframe)%nat.
Proof.
  rewrite get_samples_unfold.
  destruct (receive_tcp self p).1 as [[[[txframe tx_ts0] rxframe] rx_ts0]|e];
    [|discriminate].
  destruct (normalize self txframe rxframe) as [[[rx_scaled tx_med] rx_med]|e] eqn:Hn;
    [|discriminate].
  apply normalize_ok in Hn as (_ & _ & Hsc).
  unfold align_and_bin, mbind, st_bind, lift.
  destruct (align_samples txframe rx_scaled) as [[tx_al rx_al]|e] eqn:Hal; [|discriminate].
  destruct (_bin_and_accumulate tx_al rx_al self) as [[[]|e] s1]; [|discriminate].
  cbn [fst mret st_ret]. intros [= <-]. cbn [tx_ts rx_ts txframe_aligned rxframe_aligned].
  exists txframe, rxframe. split; [reflexivity|].
  unfold align_samples in Hal.
  destruct (coarse_align txframe rx_scaled) as [[tx1 rx1]|e] eqn:Hco; [|discriminate Hal].
  cbn [mbind result_bind] in Hal. injection Hal as <- <-.
  destruct (coarse_align_inv txframe rx_scaled tx1 rx1 Hco) as (k & _ & Hcrop).
  set (offset := (Z.of_nat k - (Z.of_nat (length txframe) - 1))%Z) in *.
  assert (Htx1 : tx1 = (crop_by_offset offset txframe rx_scaled).1) by now rewrite <- Hcrop.
  assert (Hrx1 : rx1 = (crop_by_offset offset txframe rx_scaled).2) by now rewrite <- Hcrop.
  split.
  - rewrite Htx1. apply crop_by_offset_infix.
  - rewrite phase_align_length, subsample_align_length, Hrx1.
    assert (Hlen : length rx_scaled = length rxframe) by (rewrite Hsc; apply length_map).
    rewrite <- Hlen. unfold crop_by_offset.
    destruct (0 <? offset)%Z; [|destruct (offset <? 0)%Z];
      destruct (Z.odd (Z.abs offset)); cbn [snd];
      rewrite ?drop_last_length, ?length_drop, ?drop_last_length; lia.
Qed.
Lemma bind_inv_ok {St A B} (m : ST St A) (k : A -> ST St B) (st st' : St) (b : B) :
  (m ≫= k) st = (Ok b, st') ->
  exists a st1, m st = (Ok a, st1) /\ k a st1 = (Ok b, st').
Proof.
  unfold mbind, st_bind. destruct (m st) as [[a|e] st1]; [|discriminate].
  intros H. now exists a, st1.
Qed.

(** What [_recv_exact] returns: what was asked for, or less, and then the
    peer has closed. *)
Lemma recv_exact_ok (num_bytes : nat) s s' (bs : list byte) :
  _recv_exact num_bytes s = (Ok bs, s') ->
  (length bs <= num_bytes)%nat /\ ((length bs < num_bytes)%nat -> inbox s' = []).
Proof.
  intros H. unfold _recv_exact in H.
  destruct (Nat.le_gt_cases num_bytes (length (pending (inbox s)))) as [Hle|Hgt].
  - destruct (recv_loop_enough num_bytes num_bytes [] s (Nat.le_refl _) Hle)
      as (bufs' & s1 & Hloop & Hc & _).
    rewrite (bind_ok _ _ _ _ _ Hloop) in H. injection H as <- <-.
    simpl in Hc. rewrite Hc, length_take. lia.
  - destruct (stalls (inbox s)) eqn:Hst.
    + destruct (recv_loop_stalled num_bytes num_bytes [] s (Nat.le_refl _) Hgt Hst)
        as (s1 & Hloop & _).
      rewrite (bind_raise _ _ _ _ _ Hloop) in H. discriminate H.
    + destruct (recv_loop_closed num_bytes num_bytes [] s (Nat.le_refl _) Hgt Hst)
        as (bufs' & s1 & Hloop & Hc & Hin & _).
      rewrite (bind_ok _ _ _ _ _ Hloop) in H. injection H as <- <-.
      simpl in Hc. rewrite Hc. split; [lia | intros _; exact Hin].
Qed.

(** Once the peer has closed, [_recv_exact] returns no byte. *)
Lemma recv_exact_after_close (num_bytes : nat) s :
  inbox s = [] -> (_recv_exact num_bytes s).1 = Ok [].
Proof.
  intros Hin. unfold _recv_exact.
  destruct num_bytes as [|k]; [reflexivity|].
  destruct (recv_loop_closed (S k) (S k) [] s (Nat.le_refl _)) as (bufs' & s1 & Hloop & Hc & _).
  - rewrite Hin. simpl. lia.
  - now rewrite Hin.
  - rewrite (bind_ok _ _ _ _ _ Hloop). simpl in Hc. rewrite Hin in Hc.
    simpl in Hc. now rewrite Hc.
Qed.

Lemma np_fromstring_length (bs : list byte) (frame : list sample) :
  np_fromstring bs = Ok frame -> (8 * length frame)%nat = length bs.
Proof.
  unfold np_fromstring.
  destruct (Nat.eqb_spec (length bs mod 8) 0) as [Hmod|]; [|discriminate].
  intros [= <-].
  assert (Hlen : length bs = (8 * (length bs / 8))%nat).
  { pose proof (Nat.div_mod_eq (length bs) 8). lia. }
  now rewrite (decode_complex64_length _ _ Hlen).
Qed.

Lemma recv_frame_ok self (num_samps : Z) s s' (frame : list sample) :
  recv_frame self num_samps s = (Ok frame, s') ->
  (8 * length frame <= frame_size self num_samps)%nat
  /\ ((8 * length frame < frame_size self num_samps)%nat -> inbox s' = []).
Proof.
  unfold recv_frame, frame_size. destruct (num_samps >? 0)%Z.
  - intros H. apply bind_inv_ok in H as (bs & s1 & Hrecv & Hlift).
    unfold lift in Hlift. injection Hlift as Hfrom <-.
    apply np_fromstring_length in Hfrom. rewrite Hfrom.
    exact (recv_exact_ok _ _ _ _ Hrecv).
  - intros [= <- <-]. simpl. split; lia.
Qed.

(** On a reply that [receive_tcp] accepts, the TX payload was complete and
    the RX buffer is not longer than the TX buffer. *)
Lemma receive_tcp_rx_not_longer self (p : peer) (txframe rxframe : list sample)
    (tx_ts0 rx_ts0 : spec_float) :
  (receive_tcp self p).1 = Ok (txframe, tx_ts0, rxframe, rx_ts0) ->
  (length rxframe <= length txframe)%nat.
Proof.
  unfold receive_tcp. destruct (receive_tcp_on self p new_socket) as [r s'] eqn:H.
  cbn [fst]. intros ->. unfold receive_tcp_on in H.
  apply bind_inv_ok in H as ([] & s1 & _ & H).
  apply bind_inv_ok in H as ([] & s2 & _ & H).
  apply bind_inv_ok in H as (req & s3 & _ & H).
  apply bind_inv_ok in H as ([] & s4 & _ & H).
  apply bind_inv_ok in H as (header & s5 & _ & H).
  apply bind_inv_ok in H as ([[num_samps tx_second] tx_pps] & s6 & _ & H).
  apply bind_inv_ok in H as (tx & s7 & Htx & H).
  apply bind_inv_ok in H as (rx_header & s8 & Hrxh & H).
  apply bind_inv_ok in H as ([rx_second rx_pps] & s9 & Hun & H).
  apply bind_inv_ok in H as (rx & s10 & Hrx & H).
  apply bind_inv_ok in H as ([] & s11 & _ & H).
  apply bind_inv_ok in H as ([] & s12 & _ & H).
  apply bind_inv_ok in H as ([] & s13 & _ & H).
  injection H as <- _ <- _ _.
  apply recv_frame_ok in Htx as [Htx_le Htx_short], Hrx as [Hrx_le _].
  destruct (Nat.lt_ge_cases (8 * length tx) (frame_size self num_samps)) as [Hshort|Hfull];
    [|lia].
  exfalso. specialize (Htx_short Hshort).
  pose proof (recv_exact_after_close 8 s7 Htx_short) as Hnone.
  rewrite Hrxh in Hnone. cbn [fst] in Hnone. injection Hnone as ->.
  unfold lift in Hun. discriminate Hun.
Qed.

Lemma crop_by_offset_le (offset : Z) (tx rx : list sample) :
  (length rx <= length tx)%nat ->
  (length (crop_by_offset offset tx rx).2 <= length (crop_by_offset offset tx rx).1)%nat.
Proof.
  intros Hle. unfold crop_by_offset.
  destruct (0 <? offset)%Z; [|destruct (offset <? 0)%Z];
    destruct (Z.odd (Z.abs offset)); cbn [fst snd];
    rewrite ?drop_last_length, ?length_drop, ?drop_last_length; lia.
Qed.

(** X10: with a fine aligner that keeps the length of RX, as the
    specification asks of it, the two aligned buffers that [get_samples]
    returns have the same length, whatever the peer sent: RX is received no
    longer than TX, the cropping keeps it so, and [_bin_and_accumulate] lets
    frames of different lengths pass only when TX is empty. *)
Theorem get_samples_equal_lengths (sr prt n : Z) (calls : list call) (p : peer)
    (r : samples) :
  let self := run_calls calls (init sr prt n) in
  (get_samples p self).1 = Ok r ->
  length (txframe_aligned r) = length (rxframe_aligned r).
Proof.
  intros self. pose proof (reachable_wf sr prt n calls) as Hwf. fold self in Hwf.
  rewrite get_samples_unfold.
  destruct (receive_tcp self p).1 as [[[[txframe tx_ts0] rxframe] rx_ts0]|e] eqn:Hrecv;
    [|discriminate].
  apply receive_tcp_rx_not_longer in Hrecv.
  destruct (normalize self txframe rxframe) as [[[rx_scaled tx_med] rx_med]|e] eqn:Hn;
    [|discriminate].
  apply normalize_ok in Hn as (_ & _ & Hsc).
  assert (Hlen : length rx_scaled = length rxframe) by (rewrite Hsc; apply length_map).
  unfold align_and_bin, mbind, st_bind, lift.
  destruct (align_samples txframe rx_scaled) as [[tx_al rx_al]|e] eqn:Hal; [|discriminate].
  pose proof (bin_and_accumulate_cases tx_al rx_al self Hwf) as Hcases.
  destruct (_bin_and_accumulate tx_al rx_al self) as [[[]|e] s1]; [|discriminate].
  cbn [fst mret st_ret]. intros [= <-]. cbn [txframe_aligned rxframe_aligned].
  destruct (decide (length tx_al = length rx_al)) as [Heq|Hne]; [exact Heq|].
  destruct (decide (tx_al = [])) as [->|Hne']; [|discriminate Hcases].
  exfalso. apply Hne. clear Hcases Hne.
  unfold align_samples in Hal.
  destruct (coarse_align txframe rx_scaled) as [[tx1 rx1]|e] eqn:Hco; [|discriminate Hal].
  cbn [mbind result_bind] in Hal. injection Hal as -> <-.
  destruct (coarse_align_inv txframe rx_scaled [] rx1 Hco) as (k & _ & Hcrop).
  pose proof (crop_by_offset_le (Z.of_nat k - (Z.of_nat (length txframe) - 1))%Z
                txframe rx_scaled ltac:(lia)) as Hle.
  rewrite <- Hcrop in Hle. cbn [fst snd length] in Hle.
  rewrite phase_align_length, subsample_align_length. cbn [length]. lia.
Qed.
End Returned.

(** ** The properties above on concrete captures *)
Section ExtraExamples.
Import Fixtures.
#[local] Existing Instance Ref.platform.
#[local] Existing Instance Ref.fine_align.

Lemma receive_tcp_ignores_segmentation_witness :
  (receive_tcp fresh lagging_peer).1 = (receive_tcp fresh trickling_peer).1.
Proof.
  apply (receive_tcp_ignores_segmentation fresh lagging_peer trickling_peer);
    vm_compute; reflexivity.
Defined.

Lemma receive_tcp_complete_reply_witness :
  (receive_tcp fresh lagging_peer).1
  = Ok (decode_complex64 (Ref.frame_bytes tx5_bits), timestamp 100 0,
        decode_complex64 (Ref.frame_bytes rx5_bits), timestamp 100 0)
  /\ length (decode_complex64 (Ref.frame_bytes tx5_bits)) = Z.to_nat 5
  /\ length (decode_complex64 (Ref.frame_bytes rx5_bits)) = Z.to_nat 5.
Proof.
  apply (receive_tcp_complete_reply fresh lagging_peer 5 100 0 100 0
           (Ref.le32 5 ++ Ref.le32 100 ++ Ref.le32 0) (Ref.frame_bytes tx5_bits)
           (Ref.le32 100 ++ Ref.le32 0) (Ref.frame_bytes rx5_bits) []);
    vm_compute; reflexivity.
Defined.

Lemma receive_tcp_zero_sample_reply_witness :
  (receive_tcp fresh empty_peer).1
  = if log_debug then Raise EmptyReduction
    else Ok ([], timestamp 100 0, [], timestamp 100 0).
Proof.
  apply (receive_tcp_zero_sample_reply fresh empty_peer 100 0 100 0
           (Ref.le32 0 ++ Ref.le32 100 ++ Ref.le32 0) (Ref.le32 100 ++ Ref.le32 0) []);
    vm_compute; reflexivity.
Defined.

Lemma receive_tcp_truncated_tx_witness :
  (receive_tcp fresh short_tx_peer).1
  = Raise (if (length (Ref.frame_bytes [(b0_0625, 0%Z)]) mod 8 =? 0)%nat
           then StructError else FromstringSize).
Proof.
  apply (receive_tcp_truncated_tx fresh short_tx_peer 2 100 0
           (Ref.le32 2 ++ Ref.le32 100 ++ Ref.le32 0)
           (Ref.frame_bytes [(b0_0625, 0%Z)]));
    try (vm_compute; reflexivity).
  vm_compute. lia.
Defined.

Lemma receive_tcp_truncated_rx_witness :
  (receive_tcp fresh short_rx_peer).1
  = Ok (decode_complex64 (Ref.frame_bytes [(b0_0625, 0%Z); (b0_0625, 0%Z)]),
        timestamp 100 0,
        decode_complex64 (Ref.frame_bytes [(b0_0625, 0%Z)]), timestamp 100 0)
  /\ length (decode_complex64 (Ref.frame_bytes [(b0_0625, 0%Z); (b0_0625, 0%Z)]))
     = Z.to_nat 2
  /\ length (decode_complex64 (Ref.frame_bytes [(b0_0625, 0%Z)])) = 1%nat.
Proof.
  apply (receive_tcp_truncated_rx fresh short_rx_peer 2 100 0 100 0 1
           (Ref.le32 2 ++ Ref.le32 100 ++ Ref.le32 0)
           (Ref.frame_bytes [(b0_0625, 0%Z); (b0_0625, 0%Z)])
           (Ref.le32 100 ++ Ref.le32 0) (Ref.frame_bytes [(b0_0625, 0%Z)]));
    try (vm_compute; reflexivity).
  vm_compute. lia.
Defined.

Lemma align_samples_crop_witness :
  length [x0_125] = length [x0_125]
  /\ (exists removed : nat, length tx3 = (length [x0_125] + 2 * removed)%nat)
  /\ (exists pre post, tx3 = pre ++ [x0_125] ++ post).
Proof.
  apply (align_samples_crop tx3 rx3 [x0_125] [x0_125]); vm_compute; reflexivity.
Defined.

Lemma stored_magnitudes_in_range_witness :
  SFltb (S754_zero false) (cabs (x0_0625, x0_0625).1) = true
  /\ SFleb (cabs (x0_0625, x0_0625).1) (F32.of_Z 1) = true
  /\ is_nan (cabs (x0_0625, x0_0625).1) = false.
Proof.
  apply (stored_magnitudes_in_range 8192000 50055 5 after_capture 3
           [(x0_0625, x0_0625)] (x0_0625, x0_0625)).
  - vm_compute. reflexivity.
  - constructor.
Defined.

Lemma histogram_update_witness :
  bin_histogram
    (_bin_and_accumulate (txframe_aligned lagging_result)
       (rxframe_aligned lagging_result) fresh).2 !! 3%nat
  = Some (Nat.min 128
            (0 + length (filter (fun tr : sample_pair =>
                                   Is_true (in_interval (edge 3) (edge 4) (cabs tr.1)))
                           (zip (txframe_aligned lagging_result)
                                (rxframe_aligned lagging_result))))).
Proof.
  apply (histogram_update 8192000 50055 5 [] (txframe_aligned lagging_result)
           (rxframe_aligned lagging_result) 3 0 (edge 3) (edge 4));
    vm_compute; reflexivity.
Defined.

Lemma pair_in_range_is_stored_witness :
  exists (i : nat) lo hi bin',
    (intervals fresh !! i = Some (lo, hi)
     /\ in_interval lo hi (cabs (x0_0625, x0_0625).1) = true
     /\ forall (j : nat) lo' hi',
          intervals fresh !! j = Some (lo', hi') ->
          in_interval lo' hi' (cabs (x0_0625, x0_0625).1) = true -> j = i)
    /\ accumulated_bins
         (_bin_and_accumulate (txframe_aligned lagging_result)
            (rxframe_aligned lagging_result) fresh).2 !! i = Some bin'
    /\ ((x0_0625, x0_0625) ∈ bin' \/ length bin' = 128%nat).
Proof.
  apply (pair_in_range_is_stored 8192000 50055 5 [] (txframe_aligned lagging_result)
           (rxframe_aligned lagging_result) (x0_0625, x0_0625)).
  - reflexivity.
  - simpl. do 2 constructor. constructor.
  - vm_compute. reflexivity.
  - vm_compute. reflexivity.
Defined.

Lemma get_samples_all_or_nothing_witness :
  (get_samples closing_peer (run_calls after_capture fresh)).2
  = run_calls after_capture fresh.
Proof.
  apply (get_samples_all_or_nothing 8192000 50055 5 after_capture closing_peer).
  vm_compute. reflexivity.
Defined.

Lemma pointcloud_png_raises_after_store_witness :
  pointcloud_png
    (run_calls [GetSamples closing_peer]
       (_bin_and_accumulate (txframe_aligned lagging_result)
          (rxframe_aligned lagging_result) fresh).2)
  = TruthValueError.
Proof.
  apply (pointcloud_png_raises_after_store 8192000 50055 5 [] [GetSamples closing_peer]
           (txframe_aligned lagging_result) (rxframe_aligned lagging_result)
           (x0_0625, x0_0625)).
  - reflexivity.
  - simpl. do 2 constructor. constructor.
  - vm_compute. reflexivity.
  - vm_compute. reflexivity.
Defined.
Lemma receive_tcp_short_header_witness :
  (receive_tcp fresh closing_peer).1
  = Raise (if stalls (script closing_peer) then SocketTimeout else StructError)
  /\ is_open (receive_tcp fresh closing_peer).2 = true.
Proof.
  apply (receive_tcp_short_header fresh closing_peer); try reflexivity.
  vm_compute. lia.
Defined.

Lemma get_samples_returns_received_witness :
  exists (txframe rxframe : list sample),
    (receive_tcp fresh lagging_peer).1
    = Ok (txframe, tx_ts lagging_result, rxframe, rx_ts lagging_result)
    /\ (exists pre post, txframe = pre ++ txframe_aligned lagging_result ++ post)
    /\ (length (rxframe_aligned lagging_result) <= length rxframe)%nat.
Proof.
  apply (get_samples_returns_received fresh lagging_peer lagging_result).
  vm_compute. reflexivity.
Defined.
Lemma get_samples_equal_lengths_witness :
  length (txframe_aligned lagging_result) = length (rxframe_aligned lagging_result).
Proof.
  apply (get_samples_equal_lengths 8192000 50055 5 [] lagging_peer lagging_result).
  vm_compute. reflexivity.
Defined.


End ExtraExamples.
